(** * PokeBinder: the search, selection and default-card logic of [src/App.vue]

    A shallow embedding of the [<script setup>] block of the component:
    the seven reactive refs, the [debounce] utility, the [search]
    function with its watcher, [selectCard], the preview handlers,
    [clearSelection], the [cardImageUrl] computed property and the
    [onMounted] hook.

    Asynchronous functions are split at their [await]: the part that
    runs up to the [fetch] call, and the continuation that runs once the
    request has settled.  Timers live in an explicit event-loop record. *)

From Stdlib Require Import List String Ascii Bool Arith Lia.
Import ListNotations.
Local Open Scope string_scope.
Local Open Scope list_scope.
Local Open Scope nat_scope.
Set Warnings "-register-all".

(** ** JavaScript values that come out of [response.json()] *)

(** A number is carried as its canonical decimal text, the string
    [String(n)] returns; the text of the only falsy JSON number is "0".
    An object lists its own properties, each key once. *)
Inductive json : Type :=
| JNull
| JBool (b : bool)
| JNum (text : string)
| JStr (s : string)
| JArr (items : list json)
| JObj (fields : list (string * json)).

(** Result of a property read [v.k]. *)
Inductive lookup : Type :=
| Throws                 (* TypeError: v is null *)
| Undefined
| Found (v : json).

Fixpoint assoc (k : string) (fields : list (string * json)) : option json :=
  match fields with
  | [] => None
  | (k', v) :: rest => if String.eqb k k' then Some v else assoc k rest
  end.

(** [v.k] for the keys the component reads ([id], [image]): only objects
    carry them. *)
Definition get_prop (k : string) (v : json) : lookup :=
  match v with
  | JNull => Throws
  | JObj fields =>
      match assoc k fields with
      | Some v => Found v
      | None => Undefined
      end
  | _ => Undefined
  end.

Fixpoint join (sep : string) (parts : list string) : string :=
  match parts with
  | [] => ""
  | [p] => p
  | p :: rest => (p ++ sep ++ join sep rest)%string
  end.

(** All the strings, unless one of the conversions threw. *)
Fixpoint all_or_none (parts : list (option string)) : option (list string) :=
  match parts with
  | [] => Some []
  | None :: _ => None
  | Some p :: rest =>
      match all_or_none rest with
      | Some ps => Some (p :: ps)
      | None => None
      end
  end.

(** [String(v)], as a template literal applies it; [None] is the
    TypeError of a value that cannot be converted.  An object from JSON
    holds data only: with an own [toString] property, which cannot be a
    function, neither that nor the inherited [valueOf] yields a
    primitive and the conversion throws; without one the inherited
    [toString] answers.  An array joins the conversions of its items,
    with the empty string for [null]. *)
Fixpoint js_String (v : json) : option string :=
  match v with
  | JNull => Some "null"
  | JBool true => Some "true"
  | JBool false => Some "false"
  | JNum text => Some text
  | JStr s => Some s
  | JArr items =>
      option_map (join ",")
        (all_or_none
           (map (fun x => match x with JNull => Some "" | _ => js_String x end)
                items))
  | JObj fields =>
      match assoc "toString" fields with
      | Some _ => None
      | None => Some "[object Object]"
      end
  end.

(** [`${v.k}`]: the text a template literal puts in for a property read,
    or [None] when the read or the conversion throws. *)
Definition interpolate (l : lookup) : option string :=
  match l with
  | Throws => None
  | Undefined => Some "undefined"
  | Found v => js_String v
  end.

(** Truthiness, as [||], [?:] and [v-if] test it. *)
Definition truthy (v : json) : bool :=
  match v with
  | JNull => false
  | JBool b => b
  | JNum text => negb (String.eqb text "0")
  | JStr s => negb (String.eqb s "")
  | JArr _ | JObj _ => true
  end.

(** [Array.isArray(data) ? data : []] *)
Definition array_or_empty (data : json) : list json :=
  match data with
  | JArr items => items
  | _ => []
  end.

(** ** The network *)

(** How a [fetch] followed by [response.json()] can settle: the fetch
    promise rejects, or it resolves with a status ([ok] is the 2xx test)
    and a body that parses to [Some] value or makes [json()] throw. *)
Inductive fetch_result : Type :=
| Rejected
| Resolved (ok : bool) (body : option json).

(** The payload the code gets hold of, when it gets one. *)
Definition payload (r : fetch_result) : option json :=
  match r with
  | Resolved true (Some data) => Some data
  | _ => None
  end.

Definition cards_endpoint : string := "https://api.tcgdex.net/v2/en/cards".

Definition search_url (query : string) : string :=
  (cards_endpoint ++ "?name=" ++ query)%string.

Definition card_url (id : string) : string :=
  (cards_endpoint ++ "/" ++ id)%string.

Definition default_card_url : string :=
  "https://api.tcgdex.net/v2/en/cards/swsh3-136".

(** ** Reactive state *)

Record state : Type := mkState {
  card : json;                    (* ref(null) *)
  searchQuery : string;           (* ref("") *)
  searchResults : list json;      (* ref([]) *)
  selectedCard : json;            (* ref(null) *)
  previewCard : json;             (* ref(null) *)
  isSearching : bool;             (* ref(false) *)
  searchError : option string     (* ref(null) *)
}.

Definition initial_state : state :=
  mkState JNull "" [] JNull JNull false None.

Definition set_card (v : json) (s : state) : state :=
  mkState v (searchQuery s) (searchResults s) (selectedCard s)
          (previewCard s) (isSearching s) (searchError s).

Definition set_searchQuery (q : string) (s : state) : state :=
  mkState (card s) q (searchResults s) (selectedCard s)
          (previewCard s) (isSearching s) (searchError s).

Definition set_searchResults (l : list json) (s : state) : state :=
  mkState (card s) (searchQuery s) l (selectedCard s)
          (previewCard s) (isSearching s) (searchError s).

Definition set_selectedCard (v : json) (s : state) : state :=
  mkState (card s) (searchQuery s) (searchResults s) v
          (previewCard s) (isSearching s) (searchError s).

Definition set_previewCard (v : json) (s : state) : state :=
  mkState (card s) (searchQuery s) (searchResults s) (selectedCard s)
          v (isSearching s) (searchError s).

Definition set_isSearching (b : bool) (s : state) : state :=
  mkState (card s) (searchQuery s) (searchResults s) (selectedCard s)
          (previewCard s) b (searchError s).

Definition set_searchError (e : option string) (s : state) : state :=
  mkState (card s) (searchQuery s) (searchResults s) (selectedCard s)
          (previewCard s) (isSearching s) e.

(** ** Timers and the [debounce] utility *)

Section Debounce.

Context {A S : Type}.

(** A pending [setTimeout]: its handle, the time it is due and the
    arguments its callback closed over. *)
Record timer : Type := mkTimer {
  timer_id : nat;
  fire_at : nat;
  timer_args : A
}.

(** The event loop: the current time in milliseconds, the next fresh
    handle and the pending timers in the order they were set. *)
Record loop : Type := mkLoop {
  clock : nat;
  next_id : nat;
  timers : list timer
}.

(** [setTimeout(() => fn(...args), delay)] returns the new handle. *)
Definition setTimeout (args : A) (delay : nat) (l : loop) : nat * loop :=
  (next_id l,
   mkLoop (clock l) (Datatypes.S (next_id l))
          (timers l ++ [mkTimer (next_id l) (clock l + delay) args])).

(** [clearTimeout(id)]; with [undefined] it does nothing. *)
Definition clearTimeout (id : option nat) (l : loop) : loop :=
  match id with
  | None => l
  | Some i =>
      mkLoop (clock l) (next_id l)
             (filter (fun t => negb (Nat.eqb (timer_id t) i)) (timers l))
  end.

Definition is_due (now : nat) (t : timer) : bool := fire_at t <=? now.

(** What one debounced wrapper sees: its closure variable [timeoutId],
    the event loop, and the store its callback works on. *)
Record dworld : Type := mkD {
  timeoutId : option nat;
  evloop : loop;
  store : S
}.

Variable fn : A -> S -> S.
Variable delay : nat.

(** The wrapper [debounce(fn, delay)] returns, applied to [args]. *)
Definition debounce (args : A) (w : dworld) : dworld :=
  let l1 := clearTimeout (timeoutId w) (evloop w) in
  let '(id, l2) := setTimeout args delay l1 in
  mkD (Some id) l2 (store w).

(** [d] milliseconds pass: the timers that fall due run their callback
    and leave the queue.  All timers here are set with the one [delay],
    so the order of the queue is the order in which they fall due. *)
Definition elapse (d : nat) (w : dworld) : dworld :=
  let now := clock (evloop w) + d in
  let due := filter (is_due now) (timers (evloop w)) in
  let rest := filter (fun t => negb (is_due now t)) (timers (evloop w)) in
  mkD (timeoutId w)
      (mkLoop now (next_id (evloop w)) rest)
      (fold_left (fun s t => fn (timer_args t) s) due (store w)).

Inductive dev : Type :=
| Call (args : A)
| Wait (d : nat).

Definition dstep (w : dworld) (e : dev) : dworld :=
  match e with
  | Call args => debounce args w
  | Wait d => elapse d w
  end.

Definition drun (evs : list dev) (w : dworld) : dworld :=
  fold_left dstep evs w.

(** A wrapper that was never called, at page load. *)
Definition fresh (s : S) : dworld := mkD None (mkLoop 0 1 []) s.

(** The wrapper keeps track of the only pending timer, if there is one. *)
Definition tracked (w : dworld) : Prop :=
  match timers (evloop w) with
  | [] => True
  | [t] => timeoutId w = Some (timer_id t)
  | _ => False
  end.

(** The debounce contract in the words of the specification: a call is
    executed when [delay] elapses with no further call; otherwise it is
    dropped.  [quiet_after evs] is the time that passes before the next
    call, [settles r evs] tells whether a timer with [r] milliseconds
    left gets to run, and [quiet_calls evs] lists the arguments of the
    calls that are executed, in order. *)
Fixpoint quiet_after (evs : list dev) : nat :=
  match evs with
  | Wait d :: rest => d + quiet_after rest
  | _ => 0
  end.

Definition settles (r : nat) (evs : list dev) : bool :=
  match evs with
  | Wait _ :: _ => r <=? quiet_after evs
  | _ => false
  end.

Fixpoint quiet_calls (evs : list dev) : list A :=
  match evs with
  | [] => []
  | Call args :: rest =>
      if settles delay rest then args :: quiet_calls rest
      else quiet_calls rest
  | Wait _ :: rest => quiet_calls rest
  end.

(** The same, starting with whatever timer is pending in [w]. *)
Definition quiet_from (w : dworld) (evs : list dev) : list A :=
  match timers (evloop w) with
  | [t] =>
      if settles (fire_at t - clock (evloop w)) evs
      then timer_args t :: quiet_calls evs
      else quiet_calls evs
  | _ => quiet_calls evs
  end.

(** A burst: calls, each followed by a pause shorter than [delay]. *)
Definition burst (calls : list (A * nat)) : list dev :=
  flat_map (fun c => [Call (fst c); Wait (snd c)]) calls.

End Debounce.

Arguments timer : clear implicits.
Arguments loop : clear implicits.
Arguments dworld : clear implicits.
Arguments dev : clear implicits.

(** ** The component *)

(** The refs together with the requests the page has issued so far, in
    order. *)
Record page : Type := mkPage {
  refs : state;
  sent : list string
}.

Definition update (f : state -> state) (p : page) : page :=
  mkPage (f (refs p)) (sent p).

Definition fetch (url : string) (p : page) : page :=
  mkPage (refs p) (sent p ++ [url]).

Definition search_failed : string := "Failed to search cards. Please try again.".

(** [search], up to its [await fetch(...)]; with a short query it runs
    to its end here. *)
Definition search_begin (p : page) : page :=
  let p1 := update (set_searchError None) p in
  if 2 <? String.length (searchQuery (refs p1)) then
    fetch (search_url (searchQuery (refs p1)))
          (update (set_isSearching true) p1)
  else
    update (fun s => set_isSearching false (set_searchResults [] s)) p1.

(** The URL [search] would request from this state, if any. *)
Definition search_request (s : state) : option string :=
  if 2 <? String.length (searchQuery s) then Some (search_url (searchQuery s))
  else None.

(** [search], from the point the request has settled: the rest of the
    [try] block, or the [catch] block. *)
Definition search_resume (r : fetch_result) (s : state) : state :=
  match r with
  | Resolved true (Some data) =>
      set_isSearching false (set_searchResults (array_or_empty data) s)
  | _ =>
      set_isSearching false
        (set_searchResults [] (set_searchError (Some search_failed) s))
  end.

(** [search] run from start to end against a network [net]. *)
Definition search (net : string -> fetch_result) (p : page) : page :=
  match search_request (refs p) with
  | Some url => update (search_resume (net url)) (search_begin p)
  | None => search_begin p
  end.

(** The page with its timers; the debounced callback is [search]. *)
Definition world : Type := dworld unit page.

Definition on_page (f : page -> page) (w : world) : world :=
  mkD (timeoutId w) (evloop w) (f (store w)).

Definition view (w : world) : state := refs (store w).

Definition search_delay : nat := 300.

(** [debouncedSearch = debounce(search, 300)], called as the watcher
    calls it, without arguments. *)
Definition debouncedSearch (w : world) : world :=
  debounce search_delay tt w.

(** Time passing on the page; a timer that falls due starts [search]. *)
Definition tick (d : nat) (w : world) : world :=
  elapse (fun _ => search_begin) d w.

(** The callback of [watch(searchQuery, ...)]. *)
Definition watch_searchQuery (w : world) : world :=
  if String.length (searchQuery (view w)) =? 0 then
    on_page (update (fun s => set_isSearching false (set_searchResults [] s))) w
  else
    debouncedSearch w.

(** A write to [searchQuery.value] by [v-model]; the watcher runs when
    the value changed. *)
Definition input (q : string) (w : world) : world :=
  if String.eqb q (searchQuery (view w)) then w
  else watch_searchQuery (on_page (update (set_searchQuery q)) w).

(** The request [selectCard(result)] makes, unless building its address
    [`.../cards/${result.id}`] throws: reading [id] off [null], or
    converting an [id] that has no string form. *)
Definition selectCard_request (result : json) : option string :=
  option_map card_url (interpolate (get_prop "id" result)).

(** [selectCard], up to its [await]: the three writes, the [fetch] call
    (or the [catch] block when building the address throws), then the
    watcher job that the write to [searchQuery] queued. *)
Definition selectCard_begin (result : json) (w : world) : world :=
  let changed := negb (String.eqb "" (searchQuery (view w))) in
  let w1 :=
    on_page (update (fun s =>
      set_previewCard JNull (set_searchQuery "" (set_searchResults [] s)))) w in
  let w2 :=
    match selectCard_request result with
    | Some url => on_page (fetch url) w1
    | None => on_page (update (set_selectedCard result)) w1
    end in
  if changed then watch_searchQuery w2 else w2.

(** [selectCard], from the point the request has settled. *)
Definition selectCard_resume (result : json) (r : fetch_result) (s : state)
  : state :=
  match r with
  | Resolved true (Some fullCardData) => set_selectedCard fullCardData s
  | _ => set_selectedCard result s
  end.

Definition selectCard (net : string -> fetch_result) (result : json)
  (w : world) : world :=
  match selectCard_request result with
  | Some url =>
      on_page (update (selectCard_resume result (net url)))
              (selectCard_begin result w)
  | None => selectCard_begin result w
  end.

Definition showPreview (result : json) (s : state) : state :=
  set_previewCard result s.

Definition hidePreview (s : state) : state :=
  set_previewCard JNull s.

Definition clearSelection (s : state) : state :=
  set_selectedCard JNull s.

(** [selectedCard.value || card.value] *)
Definition activeCard (s : state) : json :=
  if truthy (selectedCard s) then selectedCard s else card s.

(** [None] when converting the image throws. *)
Definition cardImageUrl (s : state) : option string :=
  let a := activeCard s in
  if truthy a then
    option_map (fun image => (image ++ "/high.webp")%string)
               (interpolate (get_prop "image" a))
  else Some "".

(** The template shows the preview image only inside the results block,
    which is rendered while the list is not empty. *)
Definition shownPreview (s : state) : option json :=
  if (0 <? List.length (searchResults s)) && truthy (previewCard s)
  then Some (previewCard s) else None.

(** The [onMounted] hook, up to its [await] and from it. *)
Definition onMounted_begin (p : page) : page :=
  fetch default_card_url p.

Definition onMounted_resume (r : fetch_result) (s : state) : state :=
  match r with
  | Resolved true (Some data) => set_card data s
  | _ => s
  end.

Definition onMounted (net : string -> fetch_result) (p : page) : page :=
  update (onMounted_resume (net default_card_url)) (onMounted_begin p).

(** The page when the component has just been set up, and after its
    mount hook has run. *)
Definition setup : world := fresh (mkPage initial_state []).

Definition mounted (net : string -> fetch_result) : world :=
  on_page (onMounted net) setup.

(** ** What can happen after mount *)

Inductive event : Type :=
| Input (q : string)                          (* typing in the search box *)
| Tick (d : nat)                              (* time passes *)
| SearchSettled (r : fetch_result)            (* a search request settles *)
| Click (result : json)                       (* click on a result *)
| DetailSettled (result : json) (r : fetch_result)
| MouseEnter (result : json)
| MouseLeave
| ClickClear.                                 (* the Clear Selection button *)

Definition step (w : world) (e : event) : world :=
  match e with
  | Input q => input q w
  | Tick d => tick d w
  | SearchSettled r => on_page (update (search_resume r)) w
  | Click result => selectCard_begin result w
  | DetailSettled result r => on_page (update (selectCard_resume result r)) w
  | MouseEnter result => on_page (update (showPreview result)) w
  | MouseLeave => on_page (update hidePreview) w
  | ClickClear => on_page (update clearSelection) w
  end.

Definition run (evs : list event) (w : world) : world :=
  fold_left step evs w.

(** ** Outcomes and sample data *)

(** A request fails when the fetch rejects, the status is not 2xx, or the
    body does not parse: every case in which control reaches [catch]. *)
Definition failed (r : fetch_result) : bool :=
  match r with
  | Resolved true (Some _) => false
  | _ => true
  end.

(** The list endpoint's record for Furret, and the detail record. *)
Definition furret : json :=
  JObj [("id", JStr "swsh3-136"); ("name", JStr "Furret");
        ("image", JStr "https://assets.tcgdex.net/en/swsh/swsh3/136")].

Definition furret_full : json :=
  JObj [("id", JStr "swsh3-136"); ("name", JStr "Furret");
        ("image", JStr "https://assets.tcgdex.net/en/swsh/swsh3/136");
        ("hp", JNum "110");
        ("weaknesses",
         JArr [JObj [("type", JStr "Fighting"); ("value", JStr "x2")]])].

(** Networks that answer every request the same way. *)
Definition always (r : fetch_result) : string -> fetch_result := fun _ => r.

(** Typing: each key stroke leaves a new query, then some time passes. *)
Definition typing (keys : list (string * nat)) : list event :=
  flat_map (fun k => [Input (fst k); Tick (snd k)]) keys.

(** Each query of [qs] is non-empty and differs from the one before it,
    starting from [current]. *)
Fixpoint edits (current : string) (qs : list string) : Prop :=
  match qs with
  | [] => True
  | q :: rest => q <> current /\ q <> "" /\ edits q rest
  end.

(** A session: "pik" is searched and answered with Furret, the pointer
    rests on that result, and a key has just been deleted. *)
Definition hovering : world :=
  run [Input "pik"; Tick 300;
       SearchSettled (Resolved true (Some (JArr [furret])));
       MouseEnter furret; Input "pi"] (mounted (always Rejected)).

(** A session that ended with a failed search for "pik". *)
Definition search_just_failed : world :=
  run [Input "pik"; Tick 300; SearchSettled Rejected]
      (mounted (always (Resolved true (Some furret_full)))).

(** ** The template *)

(** What the [v-if] directives of the template let through, and the
    image addresses it binds. *)

(** [<span v-if="isSearching">] *)
Definition showsSearching (s : state) : bool := isSearching s.

(** [<span v-if="searchError">]: a string is truthy unless empty. *)
Definition showsError (s : state) : bool :=
  match searchError s with
  | Some message => negb (String.eqb message "")
  | None => false
  end.

(** [<div v-if="searchResults.length > 0" class="search-results">] *)
Definition showsResults (s : state) : bool :=
  0 <? List.length (searchResults s).

(** The [:src] of the preview image, [`${previewCard.image}/low.webp`],
    when the preview is rendered; the inner [None] stands for a
    conversion that throws. *)
Definition previewImageUrl (s : state) : option (option string) :=
  match shownPreview s with
  | Some p =>
      Some (option_map (fun image => (image ++ "/low.webp")%string)
                       (interpolate (get_prop "image" p)))
  | None => None
  end.

(** [<div v-if="selectedCard || card" class="card-display">] *)
Definition showsCard (s : state) : bool := truthy (activeCard s).

(** [<h1 v-else>Loading...</h1>]: the [v-else] of the inner
    [<template v-if="selectedCard || card">], itself inside the block
    above. *)
Definition showsLoadingHeading (s : state) : bool :=
  showsCard s && negb (truthy (activeCard s)).

(** [<button v-if="selectedCard">], inside the inner template. *)
Definition showsClearButton (s : state) : bool :=
  showsCard s && truthy (activeCard s) && truthy (selectedCard s).

Definition truthy_prop (l : lookup) : bool :=
  match l with
  | Found v => truthy v
  | _ => false
  end.

(** [<p v-if="(selectedCard || card).hp">], inside the inner template. *)
Definition showsHp (s : state) : bool :=
  showsCard s && truthy (activeCard s) && truthy_prop (get_prop "hp" (activeCard s)).

(** ** Vocabulary for the further properties *)

(** The arguments of the calls of a run, in order. *)
Fixpoint calls_of {A : Type} (evs : list (dev A)) : list A :=
  match evs with
  | [] => []
  | Call args :: rest => args :: calls_of rest
  | Wait _ :: rest => calls_of rest
  end.

(** [l] is [l'] with some elements left out. *)
Inductive Subseq {A : Type} : list A -> list A -> Prop :=
| Subseq_nil : Subseq [] []
| Subseq_skip : forall x l l', Subseq l l' -> Subseq l (x :: l')
| Subseq_keep : forall x l l', Subseq l l' -> Subseq (x :: l) (x :: l').

(** The pending timers are at most one, the one the wrapper remembers,
    due within the delay and with a handle already handed out. *)
Definition timer_in_order (w : world) : Prop :=
  List.length (timers (evloop w)) <= 1 /\
  forall t, In t (timers (evloop w)) ->
    timeoutId w = Some (timer_id t) /\
    fire_at t <= clock (evloop w) + search_delay /\
    timer_id t < next_id (evloop w).

(** * Properties *)

(** ** Selection *)

(** C7. [clearSelection] sets the selected card to none, is idempotent,
    and changes nothing when no card is selected. *)
Theorem clearSelection_idempotent : forall s : state,
  selectedCard (clearSelection s) = JNull /\
  clearSelection (clearSelection s) = clearSelection s /\
  (selectedCard s = JNull -> clearSelection s = s).
Proof.
  intros s. repeat split.
  destruct s as [c q rs sel pv busy err]. cbn. intros Hsel. now subst sel.
Qed.

Lemma clearSelection_idempotent_witness :
  selectedCard initial_state = JNull /\
  clearSelection initial_state = initial_state.
Proof.
  split; [reflexivity|].
  apply (clearSelection_idempotent initial_state). reflexivity.
Defined.

(** ** Search *)

Lemma failed_cases : forall r,
  failed r = true <->
  r = Rejected \/ (exists body, r = Resolved false body) \/ r = Resolved true None.
Proof.
  intros r. split.
  - destruct r as [|[|] [data|]]; cbn; intros H; try discriminate; eauto.
  - intros [-> | [[body ->] | ->]]; reflexivity.
Qed.

Lemma search_request_long : forall s,
  2 < String.length (searchQuery s) ->
  search_request s = Some (search_url (searchQuery s)).
Proof.
  intros s H. unfold search_request.
  destruct (Nat.ltb_spec 2 (String.length (searchQuery s))); [reflexivity|lia].
Qed.

Lemma search_request_short : forall s,
  String.length (searchQuery s) < 3 -> search_request s = None.
Proof.
  intros s H. unfold search_request.
  destruct (Nat.ltb_spec 2 (String.length (searchQuery s))); [lia|reflexivity].
Qed.

Lemma search_begin_long : forall p,
  2 < String.length (searchQuery (refs p)) ->
  search_begin p =
  fetch (search_url (searchQuery (refs p)))
        (update (fun s => set_isSearching true (set_searchError None s)) p).
Proof.
  intros p H. unfold search_begin. cbv zeta.
  change (searchQuery (refs (update (set_searchError None) p)))
    with (searchQuery (refs p)).
  destruct (Nat.ltb_spec 2 (String.length (searchQuery (refs p)))); [reflexivity|lia].
Qed.

Lemma search_begin_short : forall p,
  String.length (searchQuery (refs p)) < 3 ->
  search_begin p =
  update (fun s =>
    set_isSearching false (set_searchResults [] (set_searchError None s))) p.
Proof.
  intros p H. unfold search_begin. cbv zeta.
  change (searchQuery (refs (update (set_searchError None) p)))
    with (searchQuery (refs p)).
  destruct (Nat.ltb_spec 2 (String.length (searchQuery (refs p)))); [lia|reflexivity].
Qed.

(** A search run from start to end with nothing else settling in
    between: the reset at the start is what leaves the error null. *)
Lemma search_success_stores_payload :
  forall (net : string -> fetch_result) (p : page) (data : json),
    2 < String.length (searchQuery (refs p)) ->
    net (search_url (searchQuery (refs p))) = Resolved true (Some data) ->
    let p' := search net p in
    (forall items, data = JArr items -> searchResults (refs p') = items) /\
    ((forall items, data <> JArr items) -> searchResults (refs p') = []) /\
    searchError (refs p') = None /\
    isSearching (refs p') = false.
Proof.
  intros net p data Hlen Hnet p'. subst p'. unfold search.
  rewrite (search_request_long _ Hlen), Hnet, (search_begin_long _ Hlen).
  cbn. repeat split.
  - intros items ->. reflexivity.
  - intros Hshape. destruct data; try reflexivity. now elim (Hshape items).
Qed.

(** C4, as the code has it. When a search request comes back 2xx with a
    JSON payload, in whatever state the page is by then, the list
    becomes that payload when it is an array and the empty list when it
    is not, and the loading flag is cleared; the error is left as it is.
    It was reset when that search started, so it is null at the end of a
    search during which nothing else settled. *)
Theorem search_success_response_stores_payload :
  (forall (s : state) (data : json),
     let s' := search_resume (Resolved true (Some data)) s in
     (forall items, data = JArr items -> searchResults s' = items) /\
     ((forall items, data <> JArr items) -> searchResults s' = []) /\
     isSearching s' = false /\
     searchError s' = searchError s) /\
  (forall p : page, searchError (refs (search_begin p)) = None) /\
  (forall (net : string -> fetch_result) (p : page) (data : json),
     2 < String.length (searchQuery (refs p)) ->
     net (search_url (searchQuery (refs p))) = Resolved true (Some data) ->
     searchResults (refs (search net p)) = array_or_empty data /\
     searchError (refs (search net p)) = None /\
     isSearching (refs (search net p)) = false).
Proof.
  split; [|split].
  - intros s data. cbn. repeat split.
    + intros items ->. reflexivity.
    + intros Hshape. destruct data; try reflexivity. now elim (Hshape items).
  - intros p. unfold search_begin. cbv zeta.
    destruct (2 <? String.length _); reflexivity.
  - intros net p data Hlen Hnet.
    destruct (search_success_stores_payload net p data Hlen Hnet)
      as (_ & _ & Herr & Hbusy).
    split; [|split; assumption].
    unfold search.
    rewrite (search_request_long _ Hlen), Hnet, (search_begin_long _ Hlen).
    reflexivity.
Qed.

Lemma search_success_response_stores_payload_witness :
  let p := mkPage (set_searchQuery "fur" initial_state) [] in
  let p' := search (always (Resolved true (Some (JArr [furret])))) p in
  searchResults (refs p') = [furret] /\
  searchError (refs p') = None /\ isSearching (refs p') = false.
Proof.
  intros p p'.
  destruct search_success_response_stores_payload as (_ & _ & Hrun).
  apply (Hrun (always (Resolved true (Some (JArr [furret])))) p (JArr [furret])).
  - cbn. lia.
  - reflexivity.
Defined.

(** C4 as stated fails: "pik" and then "pika" are searched, the first
    request is rejected after the second search has started, and the 2xx
    answer to the second leaves the message of the first in place. *)
Lemma search_success_leaves_earlier_error :
  let w := run [Input "pik"; Tick 300; Input "pika"; Tick 300;
                SearchSettled Rejected] (mounted (always Rejected)) in
  let s' := view (step w (SearchSettled (Resolved true (Some (JArr [furret]))))) in
  sent (store w) = [default_card_url; search_url "pik"; search_url "pika"] /\
  searchResults s' = [furret] /\
  isSearching s' = false /\
  searchError s' = Some search_failed /\
  searchError s' <> None.
Proof.
  repeat split; discriminate.
Qed.

(** C5. A search whose request fails (fetch rejected, status not 2xx, or a
    body that does not parse) ends with the fixed error message set, the
    result list empty and the loading flag cleared. *)
Theorem search_failure_sets_error :
  forall (net : string -> fetch_result) (p : page),
    2 < String.length (searchQuery (refs p)) ->
    failed (net (search_url (searchQuery (refs p)))) = true ->
    let p' := search net p in
    searchError (refs p') = Some search_failed /\
    searchResults (refs p') = [] /\
    isSearching (refs p') = false.
Proof.
  intros net p Hlen Hfail p'. subst p'. unfold search.
  rewrite (search_request_long _ Hlen), (search_begin_long _ Hlen).
  destruct (net (search_url (searchQuery (refs p)))) as [|[|] [data|]];
    cbn in *; try discriminate; repeat split.
Qed.

Lemma search_failure_sets_error_witness :
  let p := mkPage (set_searchResults [furret]
                     (set_searchQuery "fur" initial_state)) [] in
  let p' := search (always (Resolved false None)) p in
  searchError (refs p') = Some "Failed to search cards. Please try again." /\
  searchResults (refs p') = [] /\
  isSearching (refs p') = false.
Proof.
  intros p p'.
  apply (search_failure_sets_error (always (Resolved false None)) p).
  - cbn. lia.
  - reflexivity.
Defined.

(** ** Card selection *)

(** A record whose [id] has no string form: no address can be built. *)
Lemma selectCard_request_unprintable_id : forall fields idfields toString,
  assoc "id" fields = Some (JObj idfields) ->
  assoc "toString" idfields = Some toString ->
  selectCard_request (JObj fields) = None.
Proof.
  intros fields idfields toString Hid Hts. unfold selectCard_request.
  cbn. rewrite Hid. cbn. rewrite Hts. reflexivity.
Qed.

Lemma watch_searchQuery_empty : forall w,
  searchQuery (view w) = "" ->
  watch_searchQuery w =
  on_page (update (fun s => set_isSearching false (set_searchResults [] s))) w.
Proof.
  intros w H. unfold watch_searchQuery. rewrite H. reflexivity.
Qed.

(** What [selectCard] has written by the time it awaits. *)
Lemma selectCard_begin_view : forall result w,
  let s := view (selectCard_begin result w) in
  searchQuery s = "" /\ searchResults s = [] /\ previewCard s = JNull /\
  searchError s = searchError (view w) /\ card s = card (view w) /\
  selectedCard s =
    match selectCard_request result with
    | Some _ => selectedCard (view w)
    | None => result
    end.
Proof.
  intros result w. unfold selectCard_begin.
  destruct (selectCard_request result) as [url|];
    destruct (negb (String.eqb "" (searchQuery (view w))));
    try rewrite watch_searchQuery_empty by reflexivity;
    cbn; repeat split.
Qed.

Lemma selectCard_begin_sent : forall result (w : world),
  sent (store (selectCard_begin result w)) =
  match selectCard_request result with
  | Some url => sent (store w) ++ [url]
  | None => sent (store w)
  end.
Proof.
  intros result w. unfold selectCard_begin.
  destruct (selectCard_request result);
    destruct (negb (String.eqb "" (searchQuery (view w))));
    try rewrite watch_searchQuery_empty by reflexivity; reflexivity.
Qed.

(** C2, as the code has it. Selecting a result always empties the query,
    the results and the preview and sets no error; the selected card
    becomes the fetched payload when the request succeeds and the clicked
    result when it fails, or when no request is made because building
    its address throws. It is therefore non-null when neither the
    clicked result nor a fetched payload is null. *)
Theorem selectCard_selects_payload_or_result :
  forall (net : string -> fetch_result) (result : json) (w : world),
    let s' := view (selectCard net result w) in
    searchQuery s' = "" /\ searchResults s' = [] /\ previewCard s' = JNull /\
    searchError s' = searchError (view w) /\
    (forall url data,
        selectCard_request result = Some url ->
        net url = Resolved true (Some data) -> selectedCard s' = data) /\
    (forall url,
        selectCard_request result = Some url ->
        failed (net url) = true -> selectedCard s' = result) /\
    (selectCard_request result = None ->
     selectedCard s' = result /\
     sent (store (selectCard net result w)) = sent (store w)) /\
    (result <> JNull ->
     (forall url, selectCard_request result = Some url ->
                  net url <> Resolved true (Some JNull)) ->
     selectedCard s' <> JNull).
Proof.
  intros net result w.
  destruct (selectCard_begin_view result w) as (Hq & Hrs & Hpv & Herr & _ & Hsel).
  unfold selectCard.
  destruct (selectCard_request result) as [url|] eqn:Hreq.
  - set (w1 := selectCard_begin result w) in *.
    assert (Hshape : forall r,
      let s' := view (on_page (update (selectCard_resume result r)) w1) in
      searchQuery s' = "" /\ searchResults s' = [] /\ previewCard s' = JNull /\
      searchError s' = searchError (view w) /\
      selectedCard s' = match r with
                        | Resolved true (Some data) => data
                        | _ => result
                        end).
    { intros r. destruct r as [|[|] [data|]]; cbn; repeat split; assumption. }
    destruct (Hshape (net url)) as (Hq' & Hrs' & Hpv' & Herr' & Hsel').
    cbv zeta. repeat split; try assumption;
      try match goal with H : Some _ = None |- _ => discriminate H end.
    + intros url' data [= <-] Hnet. rewrite Hsel', Hnet. reflexivity.
    + intros url' [= <-] Hfail. rewrite Hsel'.
      destruct (net url) as [|[|] [data|]]; cbn in Hfail; try discriminate;
        reflexivity.
    + intros Hres Hnet. rewrite Hsel'. specialize (Hnet url eq_refl).
      destruct (net url) as [|[|] [data|]]; try assumption.
      intros ->. now apply Hnet.
  - pose proof (selectCard_begin_sent result w) as Hsent.
    rewrite Hreq in Hsent.
    cbv zeta. repeat split; try assumption.
    + intros url data H. discriminate H.
    + intros url H. discriminate H.
    + intros Hres _. rewrite Hsel. exact Hres.
Qed.

Lemma selectCard_selects_payload_or_result_witness :
  let net := always (Resolved false None) in
  selectedCard (view (selectCard net furret setup)) = furret /\
  selectedCard (view (selectCard net furret setup)) <> JNull.
Proof.
  intros net.
  destruct (selectCard_selects_payload_or_result net furret setup)
    as (_ & _ & _ & _ & _ & Hfail & _ & Hnonnull).
  split.
  - apply (Hfail (card_url "swsh3-136")); reflexivity.
  - apply Hnonnull; [discriminate|]. intros url _. discriminate.
Defined.

(** C2 as stated fails: a 2xx answer whose body is the JSON value [null]
    is stored as it is, and the selection ends up empty. *)
Lemma selectCard_null_payload_leaves_selection_empty :
  let net := always (Resolved true (Some JNull)) in
  selectCard_request furret = Some (card_url "swsh3-136") /\
  failed (net (card_url "swsh3-136")) = false /\
  selectedCard (view (selectCard net furret setup)) = JNull.
Proof. repeat split. Qed.

(** ** The default card *)

(** C8. The mount hook issues exactly one request, for the fixed card
    [swsh3-136]; when it succeeds the fetched record becomes the default
    card, and when it fails the default card stays null, nothing is
    retried or scheduled, and no error is shown. *)
Theorem onMounted_loads_default_card :
  forall net : string -> fetch_result,
    let w := mounted net in
    default_card_url = card_url "swsh3-136" /\
    sent (store w) = [default_card_url] /\
    timers (evloop w) = [] /\
    searchError (view w) = None /\
    (forall data, net default_card_url = Resolved true (Some data) ->
                  card (view w) = data) /\
    (failed (net default_card_url) = true -> card (view w) = JNull).
Proof.
  intros net w. subst w. unfold mounted, onMounted, view. cbn.
  repeat split.
  - destruct (net default_card_url) as [|[|] [data|]]; reflexivity.
  - intros data ->. reflexivity.
  - intros Hfail.
    destruct (net default_card_url) as [|[|] [data|]]; cbn in *;
      try discriminate; reflexivity.
Qed.

Lemma onMounted_loads_default_card_witness :
  card (view (mounted (always (Resolved true (Some furret_full))))) = furret_full /\
  card (view (mounted (always Rejected))) = JNull /\
  sent (store (mounted (always Rejected))) = [default_card_url].
Proof.
  destruct (onMounted_loads_default_card (always (Resolved true (Some furret_full))))
    as (_ & _ & _ & _ & Hok & _).
  destruct (onMounted_loads_default_card (always Rejected))
    as (_ & Hsent & _ & _ & _ & Hfail).
  split; [apply Hok; reflexivity | split; [apply Hfail; reflexivity | exact Hsent]].
Defined.

(** ** The debounce utility *)

Section DebounceFacts.

Context {A S : Type}.
Variable fn : A -> S -> S.
Variable delay : nat.

Lemma debounce_replaces_timer : forall (args : A) (w : dworld A S),
  tracked w ->
  debounce delay args w =
  mkD (Some (next_id (evloop w)))
      (mkLoop (clock (evloop w)) (Datatypes.S (next_id (evloop w)))
              [mkTimer (next_id (evloop w)) (clock (evloop w) + delay) args])
      (store w).
Proof.
  intros args [tid [now next pending] st]. unfold tracked, debounce. cbn.
  destruct pending as [|t [|t' more]]; cbn.
  - intros _. destruct tid; reflexivity.
  - intros ->. cbn. rewrite Nat.eqb_refl. reflexivity.
  - intros [].
Qed.

Lemma elapse_idle : forall d (w : dworld A S),
  timers (evloop w) = [] ->
  elapse fn d w =
  mkD (timeoutId w) (mkLoop (clock (evloop w) + d) (next_id (evloop w)) [])
      (store w).
Proof.
  intros d w H. unfold elapse. rewrite H. reflexivity.
Qed.

Lemma elapse_due : forall d (w : dworld A S) t,
  timers (evloop w) = [t] ->
  fire_at t <= clock (evloop w) + d ->
  elapse fn d w =
  mkD (timeoutId w) (mkLoop (clock (evloop w) + d) (next_id (evloop w)) [])
      (fn (timer_args t) (store w)).
Proof.
  intros d w t H Hdue. unfold elapse. rewrite H. cbn. unfold is_due.
  destruct (Nat.leb_spec (fire_at t) (clock (evloop w) + d)); [reflexivity|lia].
Qed.

Lemma elapse_early : forall d (w : dworld A S) t,
  timers (evloop w) = [t] ->
  clock (evloop w) + d < fire_at t ->
  elapse fn d w =
  mkD (timeoutId w) (mkLoop (clock (evloop w) + d) (next_id (evloop w)) [t])
      (store w).
Proof.
  intros d w t H Hearly. unfold elapse. rewrite H. cbn. unfold is_due.
  destruct (Nat.leb_spec (fire_at t) (clock (evloop w) + d)); [lia|reflexivity].
Qed.

Lemma debounce_tracked : forall args (w : dworld A S),
  tracked w -> tracked (debounce delay args w).
Proof.
  intros args w H. rewrite (debounce_replaces_timer args w H). reflexivity.
Qed.

Lemma elapse_tracked : forall d (w : dworld A S),
  tracked w -> tracked (elapse fn d w).
Proof.
  intros d w H. unfold tracked in H.
  destruct (timers (evloop w)) as [|t [|t' more]] eqn:Hq.
  - rewrite (elapse_idle d w Hq). exact I.
  - destruct (Nat.le_gt_cases (fire_at t) (clock (evloop w) + d)) as [Hd|He].
    + rewrite (elapse_due d w t Hq Hd). exact I.
    + rewrite (elapse_early d w t Hq He). exact H.
  - destruct H.
Qed.

Lemma dstep_tracked : forall e (w : dworld A S),
  tracked w -> tracked (dstep fn delay w e).
Proof.
  intros [args|d] w H; [apply debounce_tracked | apply elapse_tracked]; exact H.
Qed.

Lemma drun_tracked : forall evs (w : dworld A S),
  tracked w -> tracked (drun fn delay evs w).
Proof.
  induction evs as [|e evs IH]; intros w H; [exact H|].
  cbn. apply IH, dstep_tracked, H.
Qed.

Lemma fresh_tracked : forall s : S, tracked (@fresh A S s).
Proof. intros s. exact I. Qed.

Lemma drun_app : forall evs1 evs2 (w : dworld A S),
  drun fn delay (evs1 ++ evs2) w = drun fn delay evs2 (drun fn delay evs1 w).
Proof. intros. unfold drun. apply fold_left_app. Qed.

Lemma quiet_from_idle : forall (w : dworld A S) evs,
  timers (evloop w) = [] -> quiet_from delay w evs = quiet_calls delay evs.
Proof. intros w evs H. unfold quiet_from. rewrite H. reflexivity. Qed.

(** The timers implement the contract: what a run executes is what the
    contract lists. *)
Lemma drun_executes_quiet_calls : forall evs (w : dworld A S),
  tracked w ->
  store (drun fn delay evs w) =
  fold_left (fun s a => fn a s) (quiet_from delay w evs) (store w).
Proof.
  induction evs as [|e evs IH]; intros w Hw.
  - cbn. unfold quiet_from, settles.
    destruct (timers (evloop w)) as [|t [|]]; reflexivity.
  - cbn [drun fold_left]. fold (drun fn delay evs (dstep fn delay w e)).
    rewrite (IH _ (dstep_tracked e w Hw)).
    destruct e as [args|d]; cbn [dstep].
    + rewrite (debounce_replaces_timer args w Hw).
      unfold quiet_from at 1. cbn.
      replace (clock (evloop w) + delay - clock (evloop w)) with delay by lia.
      unfold quiet_from, settles.
      destruct (timers (evloop w)) as [|t [|]]; reflexivity.
    + unfold tracked in Hw.
      destruct (timers (evloop w)) as [|t [|t' more]] eqn:Hq.
      * rewrite (elapse_idle d w Hq). unfold quiet_from. rewrite Hq. reflexivity.
      * destruct (Nat.le_gt_cases (fire_at t) (clock (evloop w) + d)) as [Hd|He].
        -- rewrite (elapse_due d w t Hq Hd).
           unfold quiet_from. rewrite Hq. cbn.
           destruct (Nat.leb_spec (fire_at t - clock (evloop w))
                                  (d + quiet_after evs)); [reflexivity|lia].
        -- rewrite (elapse_early d w t Hq He).
           unfold quiet_from. rewrite Hq. cbn [timers evloop clock store].
           cbn [settles quiet_after quiet_calls].
           destruct evs as [|[args|d'] rest]; cbn [settles quiet_after].
           ++ destruct (Nat.leb_spec (fire_at t - clock (evloop w)) (d + 0));
                [lia|reflexivity].
           ++ destruct (Nat.leb_spec (fire_at t - clock (evloop w)) (d + 0));
                [lia|reflexivity].
           ++ destruct (Nat.leb_spec (fire_at t - (clock (evloop w) + d))
                                     (d' + quiet_after rest));
              destruct (Nat.leb_spec (fire_at t - clock (evloop w))
                                     (d + (d' + quiet_after rest)));
              try reflexivity; lia.
      * destruct Hw.
Qed.

Lemma quiet_from_call : forall (w : dworld A S) args rest,
  quiet_from delay w (Call args :: rest) = quiet_calls delay (Call args :: rest).
Proof.
  intros w args rest. unfold quiet_from.
  destruct (timers (evloop w)) as [|t [|]]; reflexivity.
Qed.

Lemma burst_starts_with_call : forall (bs : list (A * nat)) args rest,
  exists args' rest', burst bs ++ Call args :: rest = Call args' :: rest'.
Proof.
  intros [|[b g] bs] args rest; cbn; eauto.
Qed.

Lemma quiet_calls_waits : forall more : list nat,
  quiet_calls delay (map (@Wait A) more) = [].
Proof. induction more as [|d more IH]; [reflexivity | exact IH]. Qed.

(** Of a burst followed by a pause of at least [delay], only the last
    call is executed, and only once however long the pause goes on. *)
Lemma quiet_calls_burst : forall (bs : list (A * nat)) args d more,
  (forall c, In c bs -> snd c < delay) ->
  delay <= d ->
  quiet_calls delay (burst bs ++ Call args :: Wait d :: map (@Wait A) more) = [args].
Proof.
  induction bs as [|[b g] bs IH]; intros args d more Hgaps Hd.
  - cbn. rewrite quiet_calls_waits.
    destruct (Nat.leb_spec delay (d + quiet_after (map (@Wait A) more)));
      [reflexivity|lia].
  - change (burst ((b, g) :: bs) ++ Call args :: Wait d :: map (@Wait A) more)
      with (Call b :: Wait g ::
              (burst bs ++ Call args :: Wait d :: map (@Wait A) more)).
    destruct (burst_starts_with_call bs args (Wait d :: map (@Wait A) more))
      as (args' & rest' & Heq).
    cbn [quiet_calls settles quiet_after].
    rewrite Heq at 1. cbn [quiet_after].
    assert (g < delay) by (apply (Hgaps (b, g)); left; reflexivity).
    destruct (Nat.leb_spec delay (g + 0)); [lia|].
    apply IH; [|exact Hd].
    intros c Hc. apply Hgaps. right. exact Hc.
Qed.

End DebounceFacts.

(** ** The page and its timer *)

Lemma on_page_tracked : forall f (w : world), tracked w -> tracked (on_page f w).
Proof. intros f w H. exact H. Qed.

Lemma length_zero_empty : forall q : string, String.length q = 0 -> q = "".
Proof. intros [|c q]; [reflexivity | discriminate]. Qed.

(** Typing a new, non-empty query only restarts the timer. *)
Lemma input_edit : forall q (w : world),
  tracked w -> q <> searchQuery (view w) -> q <> "" ->
  input q w =
  mkD (Some (next_id (evloop w)))
      (mkLoop (clock (evloop w)) (Datatypes.S (next_id (evloop w)))
              [mkTimer (next_id (evloop w)) (clock (evloop w) + search_delay) tt])
      (update (set_searchQuery q) (store w)).
Proof.
  intros q w Hw Hnew Hne. unfold input.
  destruct (String.eqb_spec q (searchQuery (view w))) as [Heq|_]; [contradiction|].
  unfold watch_searchQuery.
  change (searchQuery (view (on_page (update (set_searchQuery q)) w))) with q.
  destruct (Nat.eqb_spec (String.length q) 0) as [H0|_].
  - elim Hne. now apply length_zero_empty.
  - unfold debouncedSearch.
    rewrite (debounce_replaces_timer search_delay tt _ (on_page_tracked _ w Hw)).
    reflexivity.
Qed.

(** Emptying the query only clears the list and the loading flag. *)
Lemma input_empty : forall w : world,
  searchQuery (view w) <> "" ->
  input "" w =
  on_page (update (fun s =>
    set_isSearching false (set_searchResults [] (set_searchQuery "" s)))) w.
Proof.
  intros w Hne. unfold input.
  destruct (String.eqb_spec "" (searchQuery (view w))) as [Heq|_].
  - elim Hne. now symmetry.
  - rewrite watch_searchQuery_empty by reflexivity. reflexivity.
Qed.

Lemma input_tracked : forall q (w : world), tracked w -> tracked (input q w).
Proof.
  intros q w Hw. unfold input.
  destruct (String.eqb q (searchQuery (view w))); [exact Hw|].
  unfold watch_searchQuery.
  destruct (String.length _ =? 0); [exact Hw|].
  apply debounce_tracked. exact Hw.
Qed.

Lemma step_tracked : forall e (w : world), tracked w -> tracked (step w e).
Proof.
  intros e w Hw. destruct e; cbn [step]; try exact Hw.
  - now apply input_tracked.
  - now apply elapse_tracked.
  - unfold selectCard_begin.
    destruct (selectCard_request result);
      destruct (negb (String.eqb "" (searchQuery (view w))));
      try rewrite watch_searchQuery_empty by reflexivity; exact Hw.
Qed.

Lemma run_tracked : forall evs (w : world), tracked w -> tracked (run evs w).
Proof.
  induction evs as [|e evs IH]; intros w Hw; [exact Hw|].
  cbn. apply IH, step_tracked, Hw.
Qed.

Lemma run_app : forall evs1 evs2 (w : world),
  run (evs1 ++ evs2) w = run evs2 (run evs1 w).
Proof. intros. unfold run. apply fold_left_app. Qed.

Lemma last_cons : forall (X : Type) (l : list X) (a d : X),
  last (a :: l) d = last l a.
Proof.
  induction l as [|b l IH]; intros a d; [reflexivity|].
  change (last (a :: b :: l) d) with (last (b :: l) d).
  rewrite (IH b d), (IH b a). reflexivity.
Qed.

(** While key strokes follow one another within the delay, nothing is
    requested, and the page holds the last query typed. *)
Lemma typing_issues_nothing : forall keys (w : world),
  tracked w ->
  edits (searchQuery (view w)) (map fst keys) ->
  (forall k, In k keys -> snd k < search_delay) ->
  let w' := run (typing keys) w in
  tracked w' /\
  sent (store w') = sent (store w) /\
  searchQuery (view w') = last (map fst keys) (searchQuery (view w)).
Proof.
  induction keys as [|[q g] keys IH]; intros w Hw Hed Hgaps.
  - cbn. auto.
  - destruct Hed as (Hnew & Hne & Hed).
    assert (Hg : g < search_delay) by (apply (Hgaps (q, g)); left; reflexivity).
    change (run (typing ((q, g) :: keys)) w)
      with (run (typing keys) (tick g (input q w))).
    pose proof (input_edit q w Hw Hnew Hne) as Hin.
    assert (Htick : tick g (input q w) =
      mkD (Some (next_id (evloop w)))
          (mkLoop (clock (evloop w) + g) (Datatypes.S (next_id (evloop w)))
                  [mkTimer (next_id (evloop w))
                           (clock (evloop w) + search_delay) tt])
          (update (set_searchQuery q) (store w))).
    { rewrite Hin. unfold tick.
      erewrite elapse_early; [reflexivity | reflexivity | cbn; lia]. }
    rewrite Htick.
    match goal with |- context [run (typing keys) ?w1] => set (w1' := w1) end.
    destruct (IH w1') as (Ht & Hs & Hq).
    + reflexivity.
    + exact Hed.
    + intros k Hk. apply Hgaps. right. exact Hk.
    + cbv zeta. repeat split; [exact Ht | exact Hs |].
      rewrite Hq. cbn [map fst]. rewrite last_cons. reflexivity.
Qed.

Lemma edits_app : forall qs current q,
  edits current (qs ++ [q]) ->
  edits current qs /\ q <> last qs current /\ q <> "".
Proof.
  induction qs as [|q0 qs IH]; intros current q H.
  - cbn in *. tauto.
  - cbn [app edits] in H. destruct H as (Hnew & Hne & H).
    destruct (IH q0 q H) as (Hed & Hlast & Hq).
    rewrite last_cons. cbn [edits]. tauto.
Qed.

Lemma mounted_tracked : forall net, tracked (mounted net).
Proof. intros net. exact I. Qed.

(** Once typing pauses for the delay, the one pending timer runs
    [search] on the query it finds then. *)
Lemma pause_issues_one_search : forall q d (w : world),
  tracked w -> q <> searchQuery (view w) -> q <> "" ->
  search_delay <= d -> 2 < String.length q ->
  sent (store (tick d (input q w))) = sent (store w) ++ [search_url q].
Proof.
  intros q d w Hw Hnew Hne Hd Hlen.
  rewrite (input_edit q w Hw Hnew Hne). unfold tick.
  erewrite elapse_due; [ | reflexivity | cbn; lia ].
  cbn [store timer_args].
  rewrite search_begin_long by exact Hlen. reflexivity.
Qed.

(** C6. Every call of the debounced wrapper replaces the pending timer by
    a new one due after the delay; what a run executes is exactly the
    calls followed by a quiet period of at least the delay, so of a burst
    only the last call runs, once, with its own arguments. On the page
    the delay is 300 ms: while typing goes on nothing is requested, and
    after the pause one search is issued, for the text typed last; the
    text searched is the one the timer finds when it fires. *)
Theorem debounce_runs_last_call_once :
  (forall (A S : Type) (fn : A -> S -> S) (delay : nat) (s : S),
     (forall pre args,
        let w := drun fn delay pre (fresh s) in
        timers (evloop (debounce delay args w)) =
        [mkTimer (next_id (evloop w)) (clock (evloop w) + delay) args]) /\
     (forall evs,
        store (drun fn delay evs (fresh s)) =
        fold_left (fun s a => fn a s) (quiet_calls delay evs) s) /\
     (forall pre bs args d more,
        (forall c, In c bs -> snd c < delay) ->
        delay <= d ->
        store (drun fn delay
                 (pre ++ burst bs ++ Call args :: Wait d :: map (@Wait A) more)
                 (fresh s)) =
        fn args (store (drun fn delay pre (fresh s))))) /\
  search_delay = 300 /\
  (forall net pre keys q d,
     let w := run pre (mounted net) in
     edits (searchQuery (view w)) (map fst keys ++ [q]) ->
     (forall k, In k keys -> snd k < search_delay) ->
     search_delay <= d ->
     2 < String.length q ->
     sent (store (run (typing keys) w)) = sent (store w) /\
     sent (store (run (typing keys ++ [Input q; Tick d]) w)) =
     sent (store w) ++ [search_url q]) /\
  (forall (w : world) t d,
     timers (evloop w) = [t] ->
     fire_at t <= clock (evloop w) + d ->
     2 < String.length (searchQuery (view w)) ->
     sent (store (tick d w)) =
     sent (store w) ++ [search_url (searchQuery (view w))]).
Proof.
  split; [|split; [reflexivity|split]].
  - intros A S fn delay s. repeat split.
    + intros pre args w.
      rewrite (debounce_replaces_timer delay args w); [reflexivity|].
      apply drun_tracked, fresh_tracked.
    + intros evs.
      rewrite (drun_executes_quiet_calls fn delay evs _ (fresh_tracked s)).
      rewrite quiet_from_idle by reflexivity. reflexivity.
    + intros pre bs args d more Hgaps Hd.
      rewrite drun_app.
      rewrite drun_executes_quiet_calls by apply drun_tracked, fresh_tracked.
      destruct (burst_starts_with_call bs args (Wait d :: map (@Wait A) more))
        as (args' & rest' & Heq).
      rewrite Heq, quiet_from_call, <- Heq.
      rewrite (quiet_calls_burst delay bs args d more Hgaps Hd). reflexivity.
  - intros net pre keys q d w Hed Hgaps Hd Hlen.
    assert (Hw : tracked w) by apply run_tracked, mounted_tracked.
    destruct (edits_app _ _ _ Hed) as (Hkeys & Hnew & Hne).
    destruct (typing_issues_nothing keys w Hw Hkeys Hgaps) as (Ht & Hs & Hq).
    split; [exact Hs|].
    rewrite run_app. cbn [run fold_left step].
    rewrite pause_issues_one_search; try assumption.
    + rewrite Hs. reflexivity.
    + rewrite Hq. exact Hnew.
  - intros w t d Hq Hdue Hlen. unfold tick.
    rewrite (elapse_due _ d w t Hq Hdue). cbn [store].
    rewrite search_begin_long by exact Hlen. reflexivity.
Qed.

Lemma debounce_runs_last_call_once_witness :
  store (drun (@cons nat) 300
              (burst [(1, 100); (2, 299)] ++ [Call 3; Wait 300; Wait 500])
              (fresh [])) = [3] /\
  sent (store (run (typing [("p", 100); ("pi", 120)] ++ [Input "pik"; Tick 300])
                   (mounted (always Rejected)))) =
  [default_card_url; search_url "pik"].
Proof.
  destruct debounce_runs_last_call_once as (Hgen & _ & Hpage & _).
  split.
  - destruct (Hgen nat (list nat) (@cons nat) 300 []) as (_ & _ & Hburst).
    apply (Hburst [] [(1, 100); (2, 299)] 3 300 [500]).
    + intros c [<-|[<-|[]]]; cbn; lia.
    + lia.
  - destruct (Hpage (always Rejected) [] [("p", 100); ("pi", 120)] "pik" 300)
      as (_ & Hsent).
    + cbn. repeat split; discriminate.
    + unfold search_delay. intros k [<-|[<-|[]]]; cbn; lia.
    + apply Nat.le_refl.
    + cbn. lia.
    + exact Hsent.
Defined.

(** ** Frame properties *)

Lemma elapse_store_invariant :
  forall (A S : Type) (fn : A -> S -> S) (P : S -> Prop),
    (forall a s, P s -> P (fn a s)) ->
    forall d (w : dworld A S), P (store w) -> P (store (elapse fn d w)).
Proof.
  intros A S fn P Hfn d w. unfold elapse. cbn [store].
  generalize (store w).
  induction (filter (is_due (clock (evloop w) + d)) (timers (evloop w)))
    as [|t due IH]; intros s Hs; [exact Hs|].
  cbn [fold_left]. apply IH, Hfn, Hs.
Qed.

Lemma search_begin_card : forall p,
  card (refs (search_begin p)) = card (refs p).
Proof.
  intros p. unfold search_begin. cbv zeta.
  destruct (2 <? String.length _); reflexivity.
Qed.

Lemma search_resume_card : forall r s,
  card (search_resume r s) = card s.
Proof. intros [|[|] [data|]] s; reflexivity. Qed.

Lemma selectCard_resume_card : forall result r s,
  card (selectCard_resume result r s) = card s.
Proof. intros result [|[|] [data|]] s; reflexivity. Qed.

Lemma tick_card : forall d (w : world),
  card (view (tick d w)) = card (view w).
Proof.
  intros d w. unfold tick, view.
  apply (elapse_store_invariant unit page (fun _ => search_begin)
           (fun p => card (refs p) = card (refs (store w)))); [|reflexivity].
  intros _ p Hp. rewrite search_begin_card. exact Hp.
Qed.

Lemma input_card : forall q (w : world),
  card (view (input q w)) = card (view w).
Proof.
  intros q w. unfold input.
  destruct (String.eqb q (searchQuery (view w))); [reflexivity|].
  unfold watch_searchQuery. destruct (String.length _ =? 0); reflexivity.
Qed.

Lemma step_card : forall (w : world) e,
  card (view (step w e)) = card (view w).
Proof.
  intros w e. destruct e; cbn [step]; try reflexivity.
  - apply input_card.
  - apply tick_card.
  - apply search_resume_card.
  - apply (selectCard_begin_view result w).
  - apply selectCard_resume_card.
Qed.

(** C9. Nothing that happens after mount writes the default card, and the
    card on display is the selected card when there is one and the
    default card otherwise. *)
Theorem default_card_is_only_superseded :
  (forall (w : world) (e : event), card (view (step w e)) = card (view w)) /\
  (forall evs (w : world), card (view (run evs w)) = card (view w)) /\
  (forall net p, card (refs (search net p)) = card (refs p)) /\
  (forall net result (w : world),
      card (view (selectCard net result w)) = card (view w)) /\
  (forall s result, card (showPreview result s) = card s) /\
  (forall s, card (hidePreview s) = card s) /\
  (forall s, card (clearSelection s) = card s) /\
  (forall s, truthy (selectedCard s) = true -> activeCard s = selectedCard s) /\
  (forall s, truthy (selectedCard s) = false -> activeCard s = card s) /\
  (forall s fields, selectedCard s = JObj fields -> activeCard s = JObj fields) /\
  (forall s, selectedCard s = JNull -> activeCard s = card s).
Proof.
  repeat split; try reflexivity.
  - apply step_card.
  - induction evs as [|e evs IH]; intros w; [reflexivity|].
    cbn [run fold_left]. fold (run evs (step w e)).
    rewrite IH. apply step_card.
  - intros net p. unfold search.
    destruct (search_request (refs p)); cbn [refs update];
      rewrite ?search_resume_card; apply search_begin_card.
  - intros net result w. unfold selectCard.
    destruct (selectCard_request result) eqn:Hreq.
    + unfold view, on_page. cbn [store refs update].
      rewrite selectCard_resume_card. apply (selectCard_begin_view result w).
    + apply (selectCard_begin_view result w).
  - intros s H. unfold activeCard. rewrite H. reflexivity.
  - intros s H. unfold activeCard. rewrite H. reflexivity.
  - intros s fields H. unfold activeCard. rewrite H. reflexivity.
  - intros s H. unfold activeCard. rewrite H. reflexivity.
Qed.

Lemma default_card_is_only_superseded_witness :
  let w := mounted (always (Resolved true (Some furret_full))) in
  let w1 := selectCard (always (Resolved false None)) furret w in
  card (view w1) = furret_full /\
  activeCard (view w1) = furret /\
  activeCard (view (on_page (update clearSelection) w1)) = furret_full.
Proof.
  intros w w1.
  destruct default_card_is_only_superseded
    as (_ & _ & _ & Hsel & _ & _ & _ & _ & _ & Hobj & Hnull).
  split; [|split].
  - unfold w1. rewrite (Hsel (always (Resolved false None)) furret w).
    reflexivity.
  - apply (Hobj (view w1)). reflexivity.
  - rewrite (Hnull (view (on_page (update clearSelection) w1)));
      reflexivity.
Defined.

(** ** Short and empty queries *)

Lemma tick_cases : forall d (w : world),
  tracked w ->
  store (tick d w) = store w \/ store (tick d w) = search_begin (store w).
Proof.
  intros d w Hw. unfold tick. unfold tracked in Hw.
  destruct (timers (evloop w)) as [|t [|t' more]] eqn:Hq.
  - left. rewrite (elapse_idle _ d w Hq). reflexivity.
  - destruct (Nat.le_gt_cases (fire_at t) (clock (evloop w) + d)) as [Hd|He].
    + right. rewrite (elapse_due _ d w t Hq Hd). reflexivity.
    + left. rewrite (elapse_early _ d w t Hq He). reflexivity.
  - destruct Hw.
Qed.

Lemma search_begin_short_effect : forall p,
  String.length (searchQuery (refs p)) < 3 ->
  sent (search_begin p) = sent p /\
  searchResults (refs (search_begin p)) = [] /\
  searchQuery (refs (search_begin p)) = searchQuery (refs p).
Proof.
  intros p H. rewrite (search_begin_short p H). repeat split.
Qed.

(** C1. From any state the page can reach, changing the query to one of
    fewer than three characters and letting the debounce delay pass
    issues no request and leaves the result list empty; so does the body
    of [search] on its own. *)
Theorem short_query_issues_no_request :
  forall net pre q d,
    let w := run pre (mounted net) in
    String.length q < 3 ->
    q <> searchQuery (view w) ->
    let w' := tick d (input q w) in
    sent (store w') = sent (store w) /\
    (search_delay <= d \/ q = "" -> searchResults (view w') = []) /\
    (forall net' p, searchQuery (refs p) = q ->
       sent (search net' p) = sent p /\ searchResults (refs (search net' p)) = []).
Proof.
  intros net pre q d w Hlen Hnew w'.
  assert (Hw : tracked w) by apply run_tracked, mounted_tracked.
  assert (Hbody : forall net' p, searchQuery (refs p) = q ->
    sent (search net' p) = sent p /\ searchResults (refs (search net' p)) = []).
  { intros net' p Hq. unfold search.
    rewrite search_request_short by (rewrite Hq; exact Hlen).
    destruct (search_begin_short_effect p) as (Hs & Hr & _);
      [rewrite Hq; exact Hlen | split; assumption]. }
  cut (sent (store w') = sent (store w) /\
       (search_delay <= d \/ q = "" -> searchResults (view w') = [])).
  { intros [H1 H2]. auto. }
  clear Hbody.
  destruct (String.eqb_spec q "") as [->|Hne].
  - assert (Hcur : searchQuery (view w) <> "")
      by (intros E; apply Hnew; now rewrite E).
    subst w'. rewrite (input_empty w Hcur).
    set (w1 := on_page _ w).
    destruct (tick_cases d w1 Hw) as [E|E]; unfold view; rewrite E.
    + split; reflexivity.
    + destruct (search_begin_short_effect (store w1)) as (Hs & Hr & _);
        [cbn; lia|].
      rewrite Hs, Hr. split; reflexivity.
  - subst w'. rewrite (input_edit q w Hw Hnew Hne). unfold tick, view.
    set (p1 := update (set_searchQuery q) (store w)).
    destruct (search_begin_short_effect p1) as (Hs & Hr & _); [exact Hlen|].
    destruct (Nat.le_gt_cases search_delay d) as [Hd|Hd].
    + erewrite elapse_due; [ | reflexivity | cbn; lia ].
      cbn [store timer_args]. rewrite Hs, Hr. split; reflexivity.
    + erewrite elapse_early; [ | reflexivity | cbn; lia ].
      cbn [store]. split; [reflexivity|].
      intros [Hd'|Hq]; [lia | contradiction].
Qed.

Lemma short_query_issues_no_request_witness :
  let w := run [Input "pik"; Tick 300;
                SearchSettled (Resolved true (Some (JArr [furret])))]
               (mounted (always Rejected)) in
  searchResults (view w) = [furret] /\
  sent (store (tick 300 (input "pi" w))) = sent (store w) /\
  searchResults (view (tick 300 (input "pi" w))) = [].
Proof.
  intros w.
  destruct (short_query_issues_no_request (always Rejected)
              [Input "pik"; Tick 300;
               SearchSettled (Resolved true (Some (JArr [furret])))]
              "pi" 300) as (Hsent & Hres & _).
  - cbn. lia.
  - discriminate.
  - split; [reflexivity | split; [exact Hsent | apply Hres; left; apply Nat.le_refl]].
Defined.

(** C3, as the code has it. When the query becomes empty the watcher
    empties the result list and clears the loading flag at once, whatever
    timer is pending. The preview is no longer shown, since the template
    renders it inside the results block, but the hovered card is kept; a
    pending debounce timer is not cancelled: when it fires, [search]
    finds the empty query, requests nothing and leaves the list empty. *)
Theorem emptying_query_clears_results_at_once :
  forall net pre,
    let w := run pre (mounted net) in
    searchQuery (view w) <> "" ->
    let w' := input "" w in
    searchResults (view w') = [] /\
    isSearching (view w') = false /\
    shownPreview (view w') = None /\
    previewCard (view w') = previewCard (view w) /\
    evloop w' = evloop w /\
    timeoutId w' = timeoutId w /\
    (forall d, searchResults (view (tick d w')) = [] /\
               sent (store (tick d w')) = sent (store w)).
Proof.
  intros net pre w Hcur w'.
  assert (Hw : tracked w) by apply run_tracked, mounted_tracked.
  subst w'. rewrite (input_empty w Hcur).
  set (w1 := on_page _ w).
  repeat split.
  - destruct (tick_cases d w1 Hw) as [E|E]; unfold view; rewrite E;
      [reflexivity|].
    apply (search_begin_short_effect (store w1)). cbn. lia.
  - destruct (tick_cases d w1 Hw) as [E|E]; rewrite E; [reflexivity|].
    destruct (search_begin_short_effect (store w1)) as (Hs & _);
      [cbn; lia | exact Hs].
Qed.

Lemma emptying_query_clears_results_at_once_witness :
  searchResults (view hovering) = [furret] /\
  searchResults (view (input "" hovering)) = [] /\
  shownPreview (view (input "" hovering)) = None /\
  searchResults (view (tick 300 (input "" hovering))) = [].
Proof.
  destruct (emptying_query_clears_results_at_once (always Rejected)
              [Input "pik"; Tick 300;
               SearchSettled (Resolved true (Some (JArr [furret])));
               MouseEnter furret; Input "pi"])
    as (Hres & _ & Hshown & _ & _ & _ & Hlater).
  - discriminate.
  - split; [reflexivity | split; [exact Hres | split; [exact Hshown|]]].
    apply (Hlater 300).
Defined.

(** C3 as stated fails: with the pointer on a result and a key stroke
    just made, emptying the query keeps the hovered card and leaves the
    debounce timer pending. *)
Lemma emptying_query_keeps_preview_and_timer :
  searchQuery (view hovering) = "pi" /\
  searchQuery (view (input "" hovering)) = "" /\
  previewCard (view (input "" hovering)) = furret /\
  previewCard (view (input "" hovering)) <> JNull /\
  timers (evloop (input "" hovering)) = [mkTimer 2 600 tt] /\
  timers (evloop (input "" hovering)) <> [].
Proof.
  repeat split; discriminate.
Qed.

(** C10. Every run of [search] starts by resetting the error, also with a
    short query, for which nothing is requested. Emptying the query
    clears the results without running or scheduling [search], so the
    error is left as it was; with no timer pending it stays so as time
    passes, and a timer that was still pending resets it when it
    fires. *)
Theorem searchError_survives_emptying_query :
  (forall p,
      searchError (refs (search_begin p)) = None /\
      (String.length (searchQuery (refs p)) < 3 ->
       sent (search_begin p) = sent p)) /\
  (forall net p, searchQuery (refs p) = "" ->
      searchError (refs (search net p)) = None /\ sent (search net p) = sent p) /\
  (forall w : world,
      searchQuery (view w) <> "" ->
      let w' := input "" w in
      searchResults (view w') = [] /\
      searchError (view w') = searchError (view w) /\
      sent (store w') = sent (store w) /\
      evloop w' = evloop w /\
      (timers (evloop w) = [] ->
       forall d, searchError (view (tick d w')) = searchError (view w)) /\
      (forall t d, timers (evloop w) = [t] ->
                   fire_at t <= clock (evloop w) + d ->
                   searchError (view (tick d w')) = None)).
Proof.
  split; [|split].
  - intros p. split.
    + unfold search_begin. cbv zeta.
      destruct (2 <? String.length _); reflexivity.
    + intros Hlen. apply (search_begin_short_effect p Hlen).
  - intros net p Hq. unfold search.
    rewrite search_request_short by (rewrite Hq; cbn; lia).
    rewrite search_begin_short by (rewrite Hq; cbn; lia).
    split; reflexivity.
  - intros w Hcur w'. subst w'. rewrite (input_empty w Hcur).
    repeat split.
    + intros Hidle d. unfold tick.
      rewrite elapse_idle by exact Hidle. reflexivity.
    + intros t d Hq Hdue. unfold tick.
      erewrite elapse_due; [ | exact Hq | exact Hdue ].
      unfold view. cbn [store]. unfold search_begin. cbv zeta.
      destruct (2 <? String.length _); reflexivity.
Qed.

Lemma searchError_survives_emptying_query_witness :
  searchError (view search_just_failed) = Some search_failed /\
  searchResults (view (input "" search_just_failed)) = [] /\
  searchError (view (input "" search_just_failed)) = Some search_failed /\
  searchError (view (tick 1000 (input "" search_just_failed))) =
    Some search_failed.
Proof.
  destruct searchError_survives_emptying_query as (_ & _ & Hempty).
  destruct (Hempty search_just_failed) as (Hres & Herr & _ & _ & Hlater & _).
  - discriminate.
  - split; [reflexivity | split; [exact Hres | split]].
    + rewrite Herr. reflexivity.
    + rewrite (Hlater eq_refl 1000). reflexivity.
Defined.

(** ** Scenarios *)

(** Typing "fur": after the delay one request is out; answered with
    Furret, the list has that one entry. *)
Example scenario_search_fur :
  let w := run [Input "fur"; Tick 300;
                SearchSettled (Resolved true (Some (JArr [furret])))]
               (mounted (always (Resolved true (Some furret_full)))) in
  sent (store w) = [default_card_url; search_url "fur"] /\
  searchResults (view w) = [furret] /\
  isSearching (view w) = false.
Proof. repeat split. Qed.

(** Clicking the result: the detail record is shown, or the clicked
    record when the detail endpoint answers 500. *)
Example scenario_click_result :
  let w := run [Input "fur"; Tick 300;
                SearchSettled (Resolved true (Some (JArr [furret])))]
               (mounted (always (Resolved true (Some furret_full)))) in
  selectedCard (view (selectCard (always (Resolved true (Some furret_full)))
                                 furret w)) = furret_full /\
  selectedCard (view (selectCard (always (Resolved false None)) furret w)) = furret /\
  cardImageUrl (view (selectCard (always (Resolved false None)) furret w)) =
    Some "https://assets.tcgdex.net/en/swsh/swsh3/136/high.webp".
Proof. repeat split. Qed.

(** Typing "p", "pi", "pik" within the delay requests nothing. *)
Example scenario_rapid_typing :
  sent (store (run [Input "p"; Tick 100; Input "pi"; Tick 100; Input "pik"; Tick 99]
                   (mounted (always Rejected)))) = [default_card_url].
Proof. reflexivity. Qed.

(** * Further properties *)

(** ** What holds in every state the page can reach *)

Lemma run_invariant : forall (P : world -> Prop),
  (forall w e, P w -> P (step w e)) ->
  forall evs w, P w -> P (run evs w).
Proof.
  intros P Hstep. induction evs as [|e evs IH]; intros w Hw; [exact Hw|].
  cbn [run fold_left]. fold (run evs (step w e)). apply IH, Hstep, Hw.
Qed.

Lemma input_store : forall q (w : world),
  store (input q w) = store w \/
  store (input q w) = update (set_searchQuery q) (store w) \/
  store (input q w) =
    update (fun s => set_isSearching false (set_searchResults [] s))
           (update (set_searchQuery q) (store w)).
Proof.
  intros q w. unfold input.
  destruct (String.eqb q (searchQuery (view w))); [left; reflexivity|].
  unfold watch_searchQuery.
  destruct (String.length _ =? 0); [right; right | right; left]; reflexivity.
Qed.

Lemma selectCard_begin_loop : forall result (w : world),
  evloop (selectCard_begin result w) = evloop w /\
  timeoutId (selectCard_begin result w) = timeoutId w.
Proof.
  intros result w. unfold selectCard_begin.
  destruct (selectCard_request result);
    destruct (negb (String.eqb "" (searchQuery (view w))));
    try rewrite watch_searchQuery_empty by reflexivity; split; reflexivity.
Qed.

(** X1. The error shown is never anything but the fixed message: in
    every state reachable after mount [searchError] is null or that
    message. *)
Theorem searchError_is_null_or_fixed_message :
  forall net evs,
    let s := view (run evs (mounted net)) in
    searchError s = None \/ searchError s = Some search_failed.
Proof.
  intros net evs.
  apply (run_invariant (fun w =>
    searchError (view w) = None \/ searchError (view w) = Some search_failed)).
  - intros w e Hw. destruct e; cbn [step]; try exact Hw.
    + destruct (input_store q w) as [E|[E|E]]; unfold view; rewrite E; exact Hw.
    + unfold tick, view.
      apply (elapse_store_invariant unit page (fun _ => search_begin)
               (fun p => searchError (refs p) = None \/
                         searchError (refs p) = Some search_failed));
        [|exact Hw].
      intros _ p _. left. unfold search_begin. cbv zeta.
      destruct (2 <? String.length _); reflexivity.
    + destruct r as [|[|] [data|]]; cbn; auto.
    + destruct (selectCard_begin_view result w) as (_ & _ & _ & Herr & _).
      rewrite Herr. exact Hw.
    + destruct r as [|[|] [data|]]; exact Hw.
  - left. unfold mounted, onMounted, view. cbn.
    destruct (net default_card_url) as [|[|] [data|]]; reflexivity.
Qed.

Lemma append_inj_r : forall p a b : string,
  (p ++ a)%string = (p ++ b)%string -> a = b.
Proof.
  induction p as [|c p IH]; intros a b H; [exact H|].
  cbn in H. injection H as H. apply IH, H.
Qed.

Lemma search_url_inj : forall q q', search_url q = search_url q' -> q = q'.
Proof.
  intros q q' H. unfold search_url in H.
  apply append_inj_r in H. apply (append_inj_r "?name=") in H. exact H.
Qed.

Lemma search_url_not_card_url : forall q id, search_url q <> card_url id.
Proof.
  intros q id H. unfold search_url, card_url in H.
  apply append_inj_r in H. discriminate H.
Qed.

(** X2. The page never asks the server to search for fewer than three
    characters: every search address among the requests of a reachable
    state carries a query longer than two. *)
Theorem never_searches_short_query :
  forall net evs q,
    In (search_url q) (sent (store (run evs (mounted net)))) ->
    2 < String.length q.
Proof.
  intros net evs.
  apply (run_invariant (fun w =>
    forall q, In (search_url q) (sent (store w)) -> 2 < String.length q)).
  - intros w e Hw. destruct e; cbn [step]; try exact Hw.
    + destruct (input_store q w) as [E|[E|E]]; rewrite E; exact Hw.
    + unfold tick.
      apply (elapse_store_invariant unit page (fun _ => search_begin)
               (fun p => forall q, In (search_url q) (sent p) ->
                                   2 < String.length q)); [|exact Hw].
      intros _ p Hp q.
      destruct (Nat.le_gt_cases (String.length (searchQuery (refs p))) 2)
        as [Hshort|Hlong].
      * rewrite search_begin_short by lia. apply Hp.
      * rewrite search_begin_long by exact Hlong. cbn [sent fetch].
        intros Hin. apply in_app_or in Hin. destruct Hin as [Hin|[Heq|[]]].
        -- now apply Hp.
        -- apply search_url_inj in Heq. now subst q.
    + intros q. rewrite selectCard_begin_sent.
      destruct (selectCard_request result) as [url|] eqn:Hreq; [|apply Hw].
      intros Hin. apply in_app_or in Hin. destruct Hin as [Hin|[Heq|[]]].
      * now apply Hw.
      * unfold selectCard_request in Hreq.
        destruct (interpolate (get_prop "id" result)) as [id|];
          [|discriminate Hreq].
        injection Hreq as <-. symmetry in Heq.
        now apply search_url_not_card_url in Heq.
  - intros q [Heq|[]]. symmetry in Heq.
    now apply (search_url_not_card_url q "swsh3-136") in Heq.
Qed.

Lemma never_searches_short_query_witness :
  In (search_url "pik")
     (sent (store (run [Input "pi"; Tick 300; Input "pik"; Tick 300]
                       (mounted (always Rejected))))) /\
  2 < String.length "pik".
Proof.
  assert (Hin : In (search_url "pik")
     (sent (store (run [Input "pi"; Tick 300; Input "pik"; Tick 300]
                       (mounted (always Rejected)))))).
  { right. left. reflexivity. }
  split; [exact Hin|].
  exact (never_searches_short_query (always Rejected)
           [Input "pi"; Tick 300; Input "pik"; Tick 300] "pik" Hin).
Defined.

Lemma timer_in_order_tracked : forall w : world, timer_in_order w -> tracked w.
Proof.
  intros w [Hlen Hin]. unfold tracked.
  destruct (timers (evloop w)) as [|t [|t' more]]; [exact I | | cbn in Hlen; lia].
  apply (Hin t). left. reflexivity.
Qed.

Lemma timer_in_order_idle : forall w : world,
  timers (evloop w) = [] -> timer_in_order w.
Proof.
  intros w H. unfold timer_in_order. rewrite H. split; [cbn; lia | intros t []].
Qed.

(** X3. In every reachable state at most one timer is pending: the one
    whose handle the wrapper holds, due at most 300 ms from now. *)
Theorem at_most_one_timer_pending :
  forall net evs, timer_in_order (run evs (mounted net)).
Proof.
  intros net evs. apply (run_invariant timer_in_order).
  - intros w e Hw. pose proof (timer_in_order_tracked w Hw) as Ht.
    destruct e; cbn [step]; try exact Hw.
    + unfold input.
      destruct (String.eqb q (searchQuery (view w))); [exact Hw|].
      unfold watch_searchQuery.
      destruct (String.length _ =? 0); [exact Hw|].
      unfold debouncedSearch.
      rewrite (debounce_replaces_timer search_delay tt _ (on_page_tracked _ w Ht)).
      split; [cbn; lia|].
      intros t [<-|[]]. cbn. repeat split; lia.
    + unfold tick. destruct Hw as [Hlen Hin].
      destruct (timers (evloop w)) as [|t [|t' more]] eqn:Hq.
      * rewrite (elapse_idle _ d w Hq). now apply timer_in_order_idle.
      * destruct (Nat.le_gt_cases (fire_at t) (clock (evloop w) + d)) as [Hd|He].
        -- rewrite (elapse_due _ d w t Hq Hd). now apply timer_in_order_idle.
        -- rewrite (elapse_early _ d w t Hq He).
           split; [cbn; lia|].
           intros t0 [<-|[]]. cbn.
           destruct (Hin t (or_introl eq_refl)) as (Hid & Hdue & Hfresh).
           repeat split; [exact Hid | lia | exact Hfresh].
      * cbn in Hlen. lia.
    + destruct (selectCard_begin_loop result w) as [Hl Hid].
      unfold timer_in_order. rewrite Hl, Hid. exact Hw.
  - now apply timer_in_order_idle.
Qed.

(** X4. Clicking a result never leads to another search: from any
    reachable state, once [selectCard] has started, no request follows as
    time passes and the result list stays empty, although the pending
    timer is left in place. *)
Theorem click_is_followed_by_no_search :
  forall net evs result d,
    let w := run evs (mounted net) in
    let w1 := selectCard_begin result w in
    evloop w1 = evloop w /\
    sent (store (tick d w1)) = sent (store w1) /\
    searchResults (view (tick d w1)) = [] /\
    searchQuery (view (tick d w1)) = "".
Proof.
  intros net evs result d w w1.
  assert (Hw1 : tracked w1)
    by apply (step_tracked (Click result)), run_tracked, mounted_tracked.
  destruct (selectCard_begin_view result w) as (Hq & Hrs & _).
  fold w1 in Hq, Hrs.
  split; [apply selectCard_begin_loop|].
  destruct (tick_cases d w1 Hw1) as [E|E]; unfold view; rewrite E.
  - repeat split; assumption.
  - destruct (search_begin_short_effect (store w1)) as (Hs & Hr & Hq').
    + unfold view in Hq. rewrite Hq. cbn. lia.
    + repeat split; [exact Hs | exact Hr | rewrite Hq'; exact Hq].
Qed.

(** X5. Typing and then deleting everything before the delay has passed
    sends nothing, however long one waits afterwards. *)
Theorem typed_then_emptied_sends_nothing :
  forall net pre keys d,
    let w := run pre (mounted net) in
    edits (searchQuery (view w)) (map fst keys) ->
    (forall k, In k keys -> snd k < search_delay) ->
    keys <> [] ->
    let w' := run (typing keys ++ [Input ""; Tick d]) w in
    sent (store w') = sent (store w) /\ searchResults (view w') = [].
Proof.
  intros net pre keys d w Hed Hgaps Hne w'.
  assert (Hw : tracked w) by apply run_tracked, mounted_tracked.
  destruct (typing_issues_nothing keys w Hw Hed Hgaps) as (Ht & Hs & Hq).
  subst w'. rewrite run_app. cbn [run fold_left step].
  set (w0 := run (typing keys) w) in *.
  assert (Hcur : searchQuery (view w0) <> "").
  { rewrite Hq. clear - Hed Hne.
    revert Hed. generalize (searchQuery (view w)).
    induction keys as [|[q g] keys IH]; [contradiction|].
    intros cur (_ & Hq & Hed). cbn [map fst]. rewrite last_cons.
    destruct keys as [|k keys']; [exact Hq|].
    apply IH; [discriminate | exact Hed]. }
  rewrite (input_empty w0 Hcur).
  set (w1 := on_page _ w0).
  destruct (tick_cases d w1 Ht) as [E|E]; unfold view; rewrite E.
  - split; [exact Hs | reflexivity].
  - destruct (search_begin_short_effect (store w1)) as (Hs' & Hr & _);
      [cbn; lia|].
    rewrite Hs', Hr. split; [exact Hs | reflexivity].
Qed.

Lemma typed_then_emptied_sends_nothing_witness :
  sent (store (run (typing [("p", 50); ("pi", 50); ("pik", 50)]
                      ++ [Input ""; Tick 1000])
                   (mounted (always Rejected)))) = [default_card_url].
Proof.
  destruct (typed_then_emptied_sends_nothing (always Rejected) []
              [("p", 50); ("pi", 50); ("pik", 50)] 1000) as [Hs _].
  - cbn. repeat split; discriminate.
  - unfold search_delay. intros k [<-|[<-|[<-|[]]]]; cbn; lia.
  - discriminate.
  - exact Hs.
Defined.

(** ** More on the debounce utility *)

Section DebounceMore.

Context {A S : Type}.
Variable fn : A -> S -> S.
Variable delay : nat.

(** With the wrapper's timer the only one pending, letting [d1] and then
    [d2] milliseconds pass is the same as letting [d1 + d2] pass. *)
Lemma elapse_splits : forall d1 d2 (w : dworld A S),
  tracked w ->
  elapse fn d2 (elapse fn d1 w) = elapse fn (d1 + d2) w.
Proof.
  intros d1 d2 w Hw. unfold tracked in Hw.
  destruct (timers (evloop w)) as [|t [|t' more]] eqn:Hq.
  - rewrite (elapse_idle fn d1 w Hq), (elapse_idle fn (d1 + d2) w Hq).
    rewrite elapse_idle by reflexivity. cbn. now rewrite Nat.add_assoc.
  - destruct (Nat.le_gt_cases (fire_at t) (clock (evloop w) + d1)) as [Hd|He].
    + rewrite (elapse_due fn d1 w t Hq Hd).
      rewrite (elapse_due fn (d1 + d2) w t Hq) by lia.
      rewrite elapse_idle by reflexivity. cbn. now rewrite Nat.add_assoc.
    + rewrite (elapse_early fn d1 w t Hq He).
      destruct (Nat.le_gt_cases (fire_at t) (clock (evloop w) + (d1 + d2)))
        as [Hd|He2].
      * rewrite (elapse_due fn (d1 + d2) w t Hq Hd).
        erewrite elapse_due; [ | reflexivity | cbn; lia ].
        cbn. now rewrite Nat.add_assoc.
      * rewrite (elapse_early fn (d1 + d2) w t Hq He2).
        erewrite elapse_early; [ | reflexivity | cbn; lia ].
        cbn. now rewrite Nat.add_assoc.
  - destruct Hw.
Qed.

Lemma quiet_calls_subseq : forall evs : list (dev A),
  Subseq (quiet_calls delay evs) (calls_of evs).
Proof.
  induction evs as [|[args|d] evs IH]; cbn [quiet_calls calls_of].
  - constructor.
  - destruct (settles delay evs); constructor; exact IH.
  - exact IH.
Qed.

(** X6. The callback only ever runs with arguments the wrapper was
    called with, in the order of the calls and at most once per call. *)
Theorem debounce_runs_only_what_was_called : forall (s : S) evs,
  exists ran,
    store (drun fn delay evs (fresh s)) = fold_left (fun s a => fn a s) ran s /\
    Subseq ran (calls_of evs) /\
    List.length ran <= List.length (calls_of evs).
Proof.
  intros s evs. exists (quiet_calls delay evs).
  assert (Hsub := quiet_calls_subseq evs).
  repeat split.
  - rewrite (drun_executes_quiet_calls fn delay evs _ (fresh_tracked s)).
    rewrite quiet_from_idle by reflexivity. reflexivity.
  - exact Hsub.
  - induction Hsub; cbn; lia.
Qed.

End DebounceMore.

(** ** Responses that cross *)

(** X7. Search responses are applied in the order they settle, with no
    regard to the request they answer: after two of them the list is
    what the second alone would leave; a success does not clear the
    message a failure just set, so message and results can show
    together; and a response that settles after the query was emptied
    fills the list again. *)
Theorem last_search_response_wins :
  forall (w : world) r1 r2,
    let s := view (step (step w (SearchSettled r1)) (SearchSettled r2)) in
    searchResults s = searchResults (search_resume r2 (view w)) /\
    isSearching s = false /\
    (failed r2 = true -> searchError s = Some search_failed) /\
    (failed r2 = false -> failed r1 = true ->
       searchError s = Some search_failed /\ showsError s = true) /\
    (failed r2 = false -> failed r1 = false ->
       searchError s = searchError (view w)) /\
    (forall items, r2 = Resolved true (Some (JArr items)) ->
       searchResults s = items /\ (items <> [] -> showsResults s = true)) /\
    searchQuery s = searchQuery (view w).
Proof.
  intros w r1 r2 s. subst s. unfold view. cbn [step on_page store update refs].
  destruct r2 as [|[|] [data2|]]; destruct r1 as [|[|] [data1|]];
    cbn; repeat split; intros; try discriminate; try reflexivity;
    match goal with
    | H : Resolved _ _ = Resolved _ _ |- _ => injection H as ->
    end;
    try reflexivity;
    match goal with
    | H : ?items <> [] |- _ => destruct items; [now elim H | reflexivity]
    end.
Qed.

Lemma last_search_response_wins_witness :
  let w := run [Input "pik"; Tick 300; Input "pika"; Tick 300; Input ""]
               (mounted (always Rejected)) in
  let s := view (step (step w (SearchSettled Rejected))
                      (SearchSettled (Resolved true (Some (JArr [furret]))))) in
  searchQuery s = "" /\ searchResults s = [furret] /\
  showsError s = true /\ showsResults s = true.
Proof.
  intros w s.
  destruct (last_search_response_wins w Rejected
              (Resolved true (Some (JArr [furret]))))
    as (_ & _ & _ & Hboth & _ & Hitems & Hq).
  fold s in Hboth, Hitems, Hq.
  destruct (Hboth eq_refl eq_refl) as (_ & Herr).
  destruct (Hitems [furret] eq_refl) as (Hres & Hshown).
  split; [exact Hq | split; [exact Hres | split; [exact Herr|]]].
  apply Hshown. discriminate.
Defined.

(** X8. Detail responses are applied as they settle too: the selection
    is what the last settled response gives, and clearing the selection
    while a detail request is on its way is undone when it settles. *)
Theorem last_detail_response_wins :
  forall (w : world) result1 r1 result2 r2,
    selectedCard (view (step (step w (DetailSettled result1 r1))
                             (DetailSettled result2 r2))) =
    selectedCard (view (step w (DetailSettled result2 r2))) /\
    selectedCard (view (step (step w ClickClear) (DetailSettled result2 r2))) =
    selectedCard (view (step w (DetailSettled result2 r2))) /\
    (forall data, r2 = Resolved true (Some data) ->
       selectedCard (view (step (step w ClickClear) (DetailSettled result2 r2)))
       = data) /\
    (failed r2 = true ->
       selectedCard (view (step (step w ClickClear) (DetailSettled result2 r2)))
       = result2).
Proof.
  intros w result1 r1 result2 r2. unfold view.
  cbn [step on_page store update refs].
  destruct r2 as [|[|] [data2|]]; destruct r1 as [|[|] [data1|]];
    cbn; repeat split; try discriminate; try reflexivity;
    intros data [= ->]; reflexivity.
Qed.

Lemma last_detail_response_wins_witness :
  let w := selectCard_begin furret (mounted (always Rejected)) in
  selectedCard (view (step (step w ClickClear)
                           (DetailSettled furret (Resolved false None)))) = furret.
Proof.
  intros w.
  destruct (last_detail_response_wins w furret Rejected furret (Resolved false None))
    as (_ & _ & _ & Hfail).
  apply Hfail. reflexivity.
Defined.

(** ** Missing fields *)

Lemma selectCard_begin_selected : forall result (w : world),
  selectedCard (view (selectCard_begin result w)) =
  match selectCard_request result with
  | Some _ => selectedCard (view w)
  | None => result
  end.
Proof. intros result w. apply (selectCard_begin_view result w). Qed.

(** X9. [selectCard] asks for the card whose [id] the clicked record
    carries; a record without [id] makes it ask for the card "undefined";
    a null result makes no request at all and leaves the selection
    null; a record whose [id] has no string form makes no request either
    and becomes the selection at once. *)
Theorem selectCard_requests_card_by_id :
  forall result (w : world),
    let w1 := selectCard_begin result w in
    (forall fields id, result = JObj fields ->
       assoc "id" fields = Some (JStr id) ->
       sent (store w1) = sent (store w) ++ [card_url id]) /\
    (forall fields, result = JObj fields -> assoc "id" fields = None ->
       sent (store w1) = sent (store w) ++ [card_url "undefined"]) /\
    (result = JNull ->
       sent (store w1) = sent (store w) /\ selectedCard (view w1) = JNull) /\
    (forall fields idfields toString, result = JObj fields ->
       assoc "id" fields = Some (JObj idfields) ->
       assoc "toString" idfields = Some toString ->
       sent (store w1) = sent (store w) /\ selectedCard (view w1) = result).
Proof.
  intros result w w1. subst w1.
  rewrite selectCard_begin_sent, selectCard_begin_selected.
  split; [|split; [|split]].
  - intros fields id -> Hid. unfold selectCard_request. cbn.
    rewrite Hid. reflexivity.
  - intros fields -> Hid. unfold selectCard_request. cbn.
    rewrite Hid. reflexivity.
  - intros ->. split; reflexivity.
  - intros fields idfields toString -> Hid Hts.
    rewrite (selectCard_request_unprintable_id fields idfields toString Hid Hts).
    split; reflexivity.
Qed.

Lemma selectCard_requests_card_by_id_witness :
  sent (store (selectCard_begin furret (mounted (always Rejected)))) =
    [default_card_url; card_url "swsh3-136"] /\
  sent (store (selectCard_begin (JObj [("name", JStr "Furret")])
                                (mounted (always Rejected)))) =
    [default_card_url; card_url "undefined"] /\
  sent (store (selectCard_begin JNull (mounted (always Rejected)))) =
    [default_card_url].
Proof.
  split; [|split].
  - apply (selectCard_requests_card_by_id furret (mounted (always Rejected)))
      with (fields := [("id", JStr "swsh3-136"); ("name", JStr "Furret");
                       ("image", JStr "https://assets.tcgdex.net/en/swsh/swsh3/136")]);
      reflexivity.
  - apply (selectCard_requests_card_by_id (JObj [("name", JStr "Furret")])
             (mounted (always Rejected)))
      with (fields := [("name", JStr "Furret")]); reflexivity.
  - apply (selectCard_requests_card_by_id JNull (mounted (always Rejected))).
    reflexivity.
Defined.

(** ** The preview *)

(** X10. The preview follows the pointer, not the list: hovering a record
    shows it while the list is not empty, leaving hides it, and the
    hovered record stays the preview when a new list arrives, whether or
    not it is in that list; a failed search hides it but keeps it. *)
Theorem preview_follows_pointer :
  forall (s : state) (r : json),
    shownPreview (hidePreview (showPreview r s)) = None /\
    (searchResults s <> [] -> truthy r = true ->
       shownPreview (showPreview r s) = Some r) /\
    (searchResults s = [] -> shownPreview (showPreview r s) = None) /\
    (forall items, items <> [] -> truthy r = true ->
       shownPreview (search_resume (Resolved true (Some (JArr items)))
                                   (showPreview r s)) = Some r) /\
    (forall resp, failed resp = true ->
       shownPreview (search_resume resp (showPreview r s)) = None /\
       previewCard (search_resume resp (showPreview r s)) = r).
Proof.
  intros s r. unfold shownPreview. repeat split.
  - cbn. now rewrite andb_false_r.
  - intros Hne Hr. cbn. rewrite Hr.
    destruct (searchResults s); [now elim Hne | reflexivity].
  - intros He. cbn. rewrite He. reflexivity.
  - intros items Hne Hr. cbn. rewrite Hr.
    destruct items; [now elim Hne | reflexivity].
  - destruct resp as [|[|] [data|]]; try discriminate; reflexivity.
  - destruct resp as [|[|] [data|]]; try discriminate; reflexivity.
Qed.

Lemma preview_follows_pointer_witness :
  let s := set_searchResults [furret] initial_state in
  shownPreview (showPreview furret s) = Some furret /\
  shownPreview (search_resume (Resolved true (Some (JArr [furret_full])))
                              (showPreview furret s)) = Some furret /\
  shownPreview (search_resume Rejected (showPreview furret s)) = None.
Proof.
  intros s.
  destruct (preview_follows_pointer s furret) as (_ & Hshow & _ & Hstale & Hfail).
  split; [|split].
  - apply Hshow; [discriminate | reflexivity].
  - apply Hstale; [discriminate | reflexivity].
  - apply (Hfail Rejected). reflexivity.
Defined.

(** ** What is displayed *)

Lemma append_not_empty : forall a b : string, b <> "" -> (a ++ b)%string <> "".
Proof.
  intros [|c a] b Hb; cbn; [exact Hb | discriminate].
Qed.

(** X11. The card image address is empty exactly when no card is active;
    otherwise it is the card's [image] followed by "/high.webp", with
    "undefined" in its place when the record has no [image], and there
    is none when the [image] has no string form. The preview address is
    built the same way with "/low.webp". *)
Theorem image_addresses :
  forall s : state,
    (showsCard s = false <-> cardImageUrl s = Some "") /\
    (forall fields i, activeCard s = JObj fields ->
       assoc "image" fields = Some (JStr i) ->
       cardImageUrl s = Some (i ++ "/high.webp")%string) /\
    (forall fields, activeCard s = JObj fields ->
       assoc "image" fields = None ->
       cardImageUrl s = Some "undefined/high.webp") /\
    (forall fields i, shownPreview s = Some (JObj fields) ->
       assoc "image" fields = Some (JStr i) ->
       previewImageUrl s = Some (Some (i ++ "/low.webp")%string)) /\
    (forall fields, shownPreview s = Some (JObj fields) ->
       assoc "image" fields = None ->
       previewImageUrl s = Some (Some "undefined/low.webp")) /\
    (showsResults s = false -> previewImageUrl s = None) /\
    (forall fields imagefields toString, activeCard s = JObj fields ->
       assoc "image" fields = Some (JObj imagefields) ->
       assoc "toString" imagefields = Some toString ->
       cardImageUrl s = None).
Proof.
  intros s. repeat split.
  - unfold showsCard, cardImageUrl. cbv zeta. intros ->. reflexivity.
  - unfold showsCard, cardImageUrl. cbv zeta.
    destruct (truthy (activeCard s)); [|reflexivity].
    destruct (interpolate (get_prop "image" (activeCard s))) as [image|];
      cbn; [|discriminate].
    intros [= H]. exfalso. revert H. apply append_not_empty. discriminate.
  - intros fields i Ha Hi. unfold cardImageUrl. cbv zeta. rewrite Ha.
    cbn. rewrite Hi. reflexivity.
  - intros fields Ha Hi. unfold cardImageUrl. cbv zeta. rewrite Ha.
    cbn. rewrite Hi. reflexivity.
  - intros fields i Hp Hi. unfold previewImageUrl. rewrite Hp.
    cbn. rewrite Hi. reflexivity.
  - intros fields Hp Hi. unfold previewImageUrl. rewrite Hp.
    cbn. rewrite Hi. reflexivity.
  - unfold showsResults, previewImageUrl, shownPreview. intros ->. reflexivity.
  - intros fields imagefields toString Ha Hi Hts. unfold cardImageUrl.
    cbv zeta. rewrite Ha. cbn. rewrite Hi. cbn. rewrite Hts. reflexivity.
Qed.

Lemma image_addresses_witness :
  cardImageUrl (set_selectedCard furret initial_state) =
    Some "https://assets.tcgdex.net/en/swsh/swsh3/136/high.webp" /\
  cardImageUrl (set_selectedCard (JObj [("name", JStr "Furret")]) initial_state) =
    Some "undefined/high.webp" /\
  cardImageUrl initial_state = Some "".
Proof.
  destruct (image_addresses (set_selectedCard furret initial_state))
    as (_ & Himg & _).
  destruct (image_addresses
              (set_selectedCard (JObj [("name", JStr "Furret")]) initial_state))
    as (_ & _ & Hmissing & _).
  destruct (image_addresses initial_state) as (Hnone & _).
  split; [|split].
  - apply (Himg [("id", JStr "swsh3-136"); ("name", JStr "Furret");
                 ("image", JStr "https://assets.tcgdex.net/en/swsh/swsh3/136")]
                "https://assets.tcgdex.net/en/swsh/swsh3/136");
      reflexivity.
  - apply Hmissing with (fields := [("name", JStr "Furret")]); reflexivity.
  - apply Hnone. reflexivity.
Defined.

(** X12. The "Loading..." heading is never rendered: its [v-else] sits
    inside a block that is rendered under the very condition it negates.
    With neither a selected nor a default card, as after a failed mount,
    the page shows no card block at all. *)
Theorem loading_heading_is_never_rendered :
  (forall s : state, showsLoadingHeading s = false) /\
  (forall s : state, selectedCard s = JNull -> card s = JNull ->
     showsCard s = false /\ showsClearButton s = false /\ showsHp s = false) /\
  (forall net, failed (net default_card_url) = true ->
     showsCard (view (mounted net)) = false /\
     showsLoadingHeading (view (mounted net)) = false).
Proof.
  assert (Hdead : forall s, showsLoadingHeading s = false).
  { intros s. unfold showsLoadingHeading, showsCard. apply andb_negb_r. }
  assert (Hnone : forall s, selectedCard s = JNull -> card s = JNull ->
     showsCard s = false).
  { intros s Hs Hc. unfold showsCard, activeCard. rewrite Hs, Hc. reflexivity. }
  split; [exact Hdead | split].
  - intros s Hs Hc. unfold showsClearButton, showsHp.
    rewrite (Hnone s Hs Hc). repeat split.
  - intros net Hfail. split; [|apply Hdead].
    assert (E : view (mounted net) = initial_state).
    { unfold mounted, onMounted, view. cbn.
      destruct (net default_card_url) as [|[|] [data|]]; try discriminate;
        reflexivity. }
    rewrite E. reflexivity.
Qed.

Lemma loading_heading_is_never_rendered_witness :
  showsCard (view (mounted (always Rejected))) = false /\
  showsLoadingHeading (view (mounted (always Rejected))) = false.
Proof.
  destruct loading_heading_is_never_rendered as (_ & _ & Hmount).
  apply (Hmount (always Rejected)). reflexivity.
Defined.

(** X13. Selecting a card and clearing the selection brings the display
    back to the default card: the same active card and image address as
    before, and no Clear button; while a record is selected the button
    is there. *)
Theorem select_then_clear_restores_display :
  forall net result (w : world),
    selectedCard (view w) = JNull ->
    let s' := clearSelection (view (selectCard net result w)) in
    activeCard s' = card (view w) /\
    activeCard s' = activeCard (view w) /\
    cardImageUrl s' = cardImageUrl (view w) /\
    showsClearButton s' = false /\
    (forall fields, selectedCard (view (selectCard net result w)) = JObj fields ->
       showsClearButton (view (selectCard net result w)) = true).
Proof.
  intros net result w Hsel s'.
  assert (Hcard : card (view (selectCard net result w)) = card (view w)).
  { unfold selectCard.
    destruct (selectCard_request result) eqn:Hreq.
    - unfold view, on_page. cbn [store refs update].
      rewrite selectCard_resume_card. apply (selectCard_begin_view result w).
    - apply (selectCard_begin_view result w). }
  assert (Hact : activeCard s' = card (view w)).
  { subst s'. unfold activeCard, clearSelection. cbn. exact Hcard. }
  assert (Hact0 : activeCard (view w) = card (view w)).
  { unfold activeCard. rewrite Hsel. reflexivity. }
  repeat split.
  - exact Hact.
  - now rewrite Hact, Hact0.
  - unfold cardImageUrl. cbv zeta. now rewrite Hact, Hact0.
  - unfold showsClearButton. subst s'. cbn. now rewrite !andb_false_r.
  - intros fields Hf. unfold showsClearButton, showsCard, activeCard.
    rewrite Hf. reflexivity.
Qed.

Lemma select_then_clear_restores_display_witness :
  let w := mounted (always (Resolved true (Some furret_full))) in
  let net := always (Resolved true (Some furret)) in
  cardImageUrl (clearSelection (view (selectCard net furret w))) =
    cardImageUrl (view w) /\
  showsClearButton (view (selectCard net furret w)) = true.
Proof.
  intros w net.
  destruct (select_then_clear_restores_display net furret w eq_refl)
    as (_ & _ & Himg & _ & Hbtn).
  split; [exact Himg|].
  apply Hbtn with (fields := [("id", JStr "swsh3-136"); ("name", JStr "Furret");
                   ("image", JStr "https://assets.tcgdex.net/en/swsh/swsh3/136")]).
  reflexivity.
Defined.

(** A clicked record whose [id] is an object with a [toString] entry:
    building the address throws, nothing is requested, and the record
    itself becomes the selection whatever the server would answer. *)
Example scenario_unprintable_id :
  let odd := JObj [("id", JObj [("toString", JNum "1")]); ("name", JStr "Odd")] in
  let w := selectCard (always (Resolved true (Some furret_full))) odd
                      (mounted (always Rejected)) in
  js_String (JObj [("toString", JNum "1")]) = None /\
  js_String (JArr [JNum "1"; JNull; JArr [JStr "a"; JStr "b"]]) = Some "1,,a,b" /\
  sent (store w) = [default_card_url] /\
  selectedCard (view w) = odd.
Proof. repeat split. Qed.
